(** * uRNN: the composite-weight initialiser, the fused linear map and the
    recurrent cells of [tf/models.py]

    Numbers are real numbers ([R]).  The conversion the source asks for, the
    cast of the float64 matrix to float32 at the end of [fixed_initializer], is
    rounding to the nearest float32, and so is the result of [tf.tanh]; the
    rounding inside numpy's float64 arithmetic and inside the sums and
    products of [matmul] and [+] is not part of this model.  What the source
    takes from numpy and from the tensor framework (array allocation, slice
    assignment with broadcasting, the uniform sampler, the variable store and
    its reuse mode, the truth value of a tensor, [matmul], [concat], the
    element-wise functions) is written out below with the behaviour those
    libraries document. *)

From Stdlib Require Import Reals Lra Lia ZArith List.
From stdpp Require Import gmap strings list pretty.

(** ** Exceptions and the world the code runs in *)

Inductive exception :=
| AssertionError
| TypeError             (* a tensor of the framework read as a truth value *)
| ValueError (msg : string)
| NotImplementedError (args : list string)
| ZeroDivisionError
| OpError (op : string).  (* the tensor framework rejects operands of an op *)

Inductive outcome (A : Type) :=
| Ok (a : A)
| Raise (e : exception).
Arguments Ok {A} a.
Arguments Raise {A} e.

(** A tensor's value: rank 1, rank 2 and rank 3 are all the code computes with. *)
Inductive tvalue :=
| Vec (v : list R)
| Mat (rows : list (list R))
| Cube (items : list (list (list R))).

(** A graph tensor: [get_shape] is [t.get_shape().as_list()], with [None] for
    a dimension that is not known when the graph is built. *)
Record Tensor := mkTensor {
  get_shape : list (option nat);
  tval : tvalue }.

(** [rng] is the stream of samples of [[0, 1)] that numpy's generator still
    has to hand out, [uninit] is what [np.empty] finds in fresh memory,
    [scope_name] is the current variable scope, [reuse] tells whether that
    scope is in reuse mode and [variables] is the framework's store of named
    parameters. *)
Record world := mkWorld {
  rng : nat -> R;
  uninit : nat -> nat -> R;
  scope_name : string;
  reuse : bool;
  variables : gmap string Tensor }.

Definition M (A : Type) : Type := world -> outcome A * world.

Definition ret {A} (a : A) : M A := fun w => (Ok a, w).
Definition raise {A} (e : exception) : M A := fun w => (Raise e, w).
Definition bind {A B} (c : M A) (k : A -> M B) : M B :=
  fun w => match c w with
           | (Ok a, w') => k a w'
           | (Raise e, w') => (Raise e, w')
           end.

Notation "x <- c ;; k" := (bind c (fun x => k))
  (at level 100, c at next level, right associativity).
Notation "c ;;; k" := (bind c (fun _ => k))
  (at level 100, right associativity).

(** [assert b] *)
Definition py_assert (b : bool) : M unit :=
  if b then ret tt else raise AssertionError.

(** ** numpy arrays of rank 2 *)

Record ndarray := mkArray {
  nd_shape : nat * nat;
  nd_rows : list (list R) }.

Definition nd_get (a : ndarray) (i j : nat) : R :=
  nth j (nth i (nd_rows a) []) 0%R.

Definition tabulate (r c : nat) (f : nat -> nat -> R) : list (list R) :=
  map (fun i => map (fun j => f i j) (seq 0 c)) (seq 0 r).

(** [np.empty(shape=(r, c))]: an array of the shape, holding whatever was there. *)
Definition np_empty (r c : nat) : M ndarray :=
  fun w => (Ok (mkArray (r, c) (tabulate r c (uninit w))), w).

(** [np.identity(n)] *)
Definition np_identity (n : nat) : ndarray :=
  mkArray (n, n) (tabulate n n (fun i j => if (i =? j)%nat then 1%R else 0%R)).

(** [np.random.uniform(low, high, size=(r, c))]: [r * c] samples in row-major
    order, each [low + (high - low) * u] for the next [u] of the generator. *)
Definition uniform_rows (low high : R) (r c : nat) (s : nat -> R) : list (list R) :=
  tabulate r c (fun i j => (low + (high - low) * s (i * c + j)%nat)%R).

Definition rng_drop (n : nat) (s : nat -> R) : nat -> R := fun k => s (n + k).

Definition np_random_uniform (low high : R) (r c : nat) : M ndarray :=
  fun w =>
    (Ok (mkArray (r, c) (uniform_rows low high r c (rng w))),
     mkWorld (rng_drop (r * c) (rng w)) (uninit w) (scope_name w) (reuse w)
       (variables w)).

(** Python's [str] of a shape tuple as numpy prints it in its messages. *)
Definition str_np_shape (s : nat * nat) : string :=
  "(" +:+ pretty (fst s) +:+ "," +:+ pretty (snd s) +:+ ")".

(** Broadcasting of a rank-2 array to shape [(r, c)]: every axis has the
    target's length or length 1, and a length-1 axis is repeated. *)
Definition broadcast_to (v : ndarray) (r c : nat) : option (list (list R)) :=
  let '(r0, c0) := nd_shape v in
  if (((r0 =? r) || (r0 =? 1)) && ((c0 =? c) || (c0 =? 1)))%nat then
    Some (tabulate r c (fun i j =>
            nd_get v (if (r0 =? 1)%nat then 0 else i)
                     (if (c0 =? 1)%nat then 0 else j)))
  else None.

(** [matrix[start:stop, :] = values]: the slice is clipped to the array, the
    values are broadcast to the slice, and a shape that does not broadcast
    raises [ValueError]. *)
Definition setitem_rows (matrix : ndarray) (start stop : nat) (values : ndarray)
  : M ndarray :=
  let '(nr, nc) := nd_shape matrix in
  let a := Nat.min start nr in
  let b := Nat.max a (Nat.min stop nr) in
  match broadcast_to values (b - a) nc with
  | Some blk =>
      ret (mkArray (nr, nc)
             (firstn a (nd_rows matrix) ++ blk ++ skipn b (nd_rows matrix)))
  | None =>
      raise (ValueError ("could not broadcast input array from shape "
                           +:+ str_np_shape (nd_shape values) +:+ " into shape "
                           +:+ str_np_shape (b - a, nc)))
  end.

(** ** fixed_initializer *)

(** [scale = np.sqrt(6.0 / (n_in + n_out))]; the division of a Python float
    by the integer 0 raises. *)
Definition block_scale (n_in n_out : nat) : M R :=
  if (n_in + n_out =? 0)%nat then raise ZeroDivisionError
  else ret (sqrt (6 / INR (n_in + n_out))).

(** The body of [for (i, n_in) in enumerate(n_in_list)], from index [i] on. *)
Fixpoint fixed_initializer_loop (n_in_list : list nat) (i : nat) (n_out : nat)
    (identity : Z) (matrix : ndarray) (row_marker : nat) : M ndarray :=
  match n_in_list with
  | [] => ret matrix
  | n_in :: rest =>
      values <- (if (Z.of_nat i =? identity)%Z then ret (np_identity n_in)
                 else scale <- block_scale n_in n_out ;;
                      np_random_uniform (- scale) scale n_in n_out) ;;
      matrix <- setitem_rows matrix row_marker (row_marker + n_in) values ;;
      fixed_initializer_loop rest (S i) n_out identity matrix (row_marker + n_in)
  end.

(** *** The cast to float32 *)

(** The integer nearest to [x], the even one of the two when [x] is half way. *)
Definition round_half_even (x : R) : Z :=
  let n := Int_part x in
  if Rlt_dec (x - IZR n) (1 / 2) then n
  else if Rlt_dec (1 / 2) (x - IZR n) then (n + 1)%Z
  else if Z.even n then n else (n + 1)%Z.

(** The exponent [e] of the binade of a magnitude [a], [2^e <= a < 2^(e+1)],
    looked for from [e] upwards in [n] steps. *)
Fixpoint binade_from (n : nat) (e : Z) (a : R) : Z :=
  match n with
  | O => e
  | S k => if Rlt_dec a (powerRZ 2 (e + 1)) then e else binade_from k (e + 1) a
  end.

(** The exponents of float32 run from -126, which also serves the subnormal
    numbers below [2^-126], to 127. *)
Definition binade (x : R) : Z := binade_from 253 (-126) (Rabs x).

(** The float32 nearest to [x], ties to the even significand: in the binade
    of exponent [e] the float32 numbers are the multiples of [2^(e-23)].
    Magnitudes from [2^128] on, which the cast sends to an infinity, have no
    image in [R]: they are rounded on the grid of the last binade. *)
Definition float32 (x : R) : R :=
  let ulp := powerRZ 2 (binade x - 23) in
  (IZR (round_half_even (x / ulp)) * ulp)%R.

(** [tf.constant(matrix, dtype=tf.float32)] *)
Definition tf_constant (a : ndarray) : Tensor :=
  mkTensor [Some (fst (nd_shape a)); Some (snd (nd_shape a))]
           (Mat (map (map float32) (nd_rows a))).

Definition fixed_initializer_array (n_in_list : list nat) (n_out : nat)
    (identity : Z) : M ndarray :=
  matrix <- np_empty (sum_list n_in_list) n_out ;;
  fixed_initializer_loop n_in_list 0 n_out identity matrix 0.

Definition fixed_initializer (n_in_list : list nat) (n_out : nat)
    (identity : Z) : M Tensor :=
  matrix <- fixed_initializer_array n_in_list n_out identity ;;
  ret (tf_constant matrix).

(** ** The tensor framework: variable scopes and the ops the code calls *)

Definition scope_join (parent name : string) : string :=
  match parent with
  | EmptyString => name
  | _ => parent +:+ "/" +:+ name
  end.

Definition set_scope (s : string) (w : world) : world :=
  mkWorld (rng w) (uninit w) s (reuse w) (variables w).

(** Back in the scope of [w], with what the body left in [w']. *)
Definition leave_scope (w w' : world) : world :=
  mkWorld (rng w') (uninit w') (scope_name w) (reuse w) (variables w').

(** [with vs.variable_scope(name): body]: the new scope takes over the reuse
    mode of the one it is opened in, and the old scope is back, with its own
    mode, however the body ends. *)
Definition variable_scope {A} (name : string) (body : M A) : M A :=
  fun w =>
    let '(r, w') := body (set_scope (scope_join (scope_name w) name) w) in
    (r, leave_scope w w').

(** [vs.get_variable_scope().reuse_variables()] *)
Definition reuse_variables : M unit :=
  fun w => (Ok tt, mkWorld (rng w) (uninit w) (scope_name w) true (variables w)).

(** Shapes are compatible when they have the same rank and agree wherever
    both know the dimension. *)
Definition dim_compatible (a b : option nat) : bool :=
  match a, b with
  | Some x, Some y => (x =? y)%nat
  | _, _ => true
  end.

Fixpoint shape_compatible (s t : list (option nat)) : bool :=
  match s, t with
  | [], [] => true
  | a :: s', b :: t' => dim_compatible a b && shape_compatible s' t'
  | _, _ => false
  end.

(** [vs.get_variable(name, shape, initializer=...)].  Out of reuse mode the
    parameter is created, and a name the store already has is an error; in
    reuse mode the stored parameter is returned, if the [shape] that was asked
    for (when one was) is compatible with its shape, and a name the store does
    not have is an error.  The messages are the framework's, without the
    shapes and the place of definition it adds to them. *)
Definition get_variable (name : string) (shape : option (list (option nat)))
    (initial : Tensor) : M Tensor :=
  fun w =>
    let full := scope_join (scope_name w) name in
    match variables w !! full, reuse w with
    | Some v, true =>
        match shape with
        | Some s =>
            if shape_compatible s (get_shape v) then (Ok v, w)
            else (Raise (ValueError ("Trying to share variable " +:+ full)), w)
        | None => (Ok v, w)
        end
    | Some _, false =>
        (Raise (ValueError ("Variable " +:+ full +:+ " already exists, disallowed.")), w)
    | None, true =>
        (Raise (ValueError ("Variable " +:+ full +:+ " does not exist, disallowed.")), w)
    | None, false =>
        (Ok initial,
         mkWorld (rng w) (uninit w) (scope_name w) (reuse w)
           (<[full := initial]> (variables w)))
    end.

(** What [tf.constant_initializer(value)] gives a variable of shape [[n]]. *)
Definition constant_initializer (value : R) (n : nat) : Tensor :=
  mkTensor [Some n] (Vec (repeat value n)).

Definition dot (x y : list R) : R :=
  fold_right Rplus 0%R (zip_with Rmult x y).

Definition column (j : nat) (rows : list (list R)) : list R :=
  map (fun r => nth j r 0%R) rows.

Definition matmul_rows (x y : list (list R)) (n : nat) : list (list R) :=
  map (fun r => map (fun j => dot r (column j y)) (seq 0 n)) x.

(** [tf.matmul(a, b)] on rank-2 operands whose inner dimensions agree. *)
Definition tf_matmul (a b : Tensor) : M Tensor :=
  match tval a, tval b, get_shape b with
  | Mat x, Mat y, [_; Some n] =>
      if forallb (fun r => (length r =? length y)%nat) x
      then ret (mkTensor [nth 0 (get_shape a) None; Some n] (Mat (matmul_rows x y n)))
      else raise (OpError "MatMul")
  | _, _, _ => raise (OpError "MatMul")
  end.

Definition merge_dim (a b : option nat) : option nat :=
  match a with Some _ => a | None => b end.

Definition add_dim (a b : option nat) : option nat :=
  match a, b with Some x, Some y => Some (x + y) | _, _ => None end.

(** [tf.concat(1, args)]: rank-2 operands with the same number of rows, joined
    row by row in the order of [args]. *)
Fixpoint tf_concat1 (args : list Tensor) : M Tensor :=
  match args with
  | [] => raise (OpError "Concat")
  | [a] => match tval a with
           | Mat _ => ret a
           | _ => raise (OpError "Concat")
           end
  | a :: rest =>
      r <- tf_concat1 rest ;;
      match tval a, tval r with
      | Mat x, Mat y =>
          if (length x =? length y)%nat
          then ret (mkTensor [merge_dim (nth 0 (get_shape a) None) (nth 0 (get_shape r) None);
                              add_dim (nth 1 (get_shape a) None) (nth 1 (get_shape r) None)]
                             (Mat (zip_with app x y)))
          else raise (OpError "Concat")
      | _, _ => raise (OpError "Concat")
      end
  end.

(** One row of [res + bias_term], with the broadcasting of a length-1 axis. *)
Definition add_row (r v : list R) : option (list R) :=
  if (length r =? length v)%nat then Some (zip_with Rplus r v)
  else if (length v =? 1)%nat then Some (map (fun a => (a + nth 0 v 0)%R) r)
  else if (length r =? 1)%nat then Some (map (fun b => (nth 0 r 0 + b)%R) v)
  else None.

Fixpoint add_rows (x : list (list R)) (v : list R) : option (list (list R)) :=
  match x with
  | [] => Some []
  | r :: rest =>
      match add_row r v, add_rows rest v with
      | Some r', Some rest' => Some (r' :: rest')
      | _, _ => None
      end
  end.

(** [a + b] for a rank-2 [a] and a rank-1 [b], the only sum the code forms. *)
Definition tf_add (a b : Tensor) : M Tensor :=
  match tval a, tval b with
  | Mat x, Vec v =>
      match add_rows x v with
      | Some rows => ret (mkTensor (get_shape a) (Mat rows))
      | None => raise (OpError "Add")
      end
  | _, _ => raise (OpError "Add")
  end.

(** Element-wise functions keep the shape. *)
Definition tvalue_map (f : R -> R) (v : tvalue) : tvalue :=
  match v with
  | Vec l => Vec (map f l)
  | Mat rows => Mat (map (map f) rows)
  | Cube items => Cube (map (map (map f)) items)
  end.

Definition tensor_map (f : R -> R) (t : Tensor) : Tensor :=
  mkTensor (get_shape t) (tvalue_map f (tval t)).

Definition relu (x : R) : R := Rmax x 0.

(** [tf.tanh] on float32 tensors: the float32 nearest to the hyperbolic
    tangent of each entry, which is exactly 1 or -1 for an entry far from 0. *)
Definition tanh32 (x : R) : R := float32 (tanh x).

Definition tf_tanh : Tensor -> Tensor := tensor_map tanh32.
Definition tf_nn_relu : Tensor -> Tensor := tensor_map relu.

(** ** linear *)

(** What a caller passes as [args]: [None], a list (or tuple) of tensors, or
    one tensor. *)
Inductive py_args :=
| ArgsNone
| ArgsList (l : list Tensor)
| ArgsTensor (t : Tensor).

(** The truth value [assert args] asks for: [None] and the empty list are
    false, a list with elements is true, and a tensor of the framework
    refuses to be read as a truth value: its [__bool__] raises [TypeError]. *)
Definition truthy (args : py_args) : M bool :=
  match args with
  | ArgsNone => ret false
  | ArgsList [] => ret false
  | ArgsList (_ :: _) => ret true
  | ArgsTensor _ => raise TypeError
  end.

(** [if not isinstance(args, (list, tuple)): args = [args]] *)
Definition as_list (args : py_args) : list Tensor :=
  match args with
  | ArgsNone => []
  | ArgsList l => l
  | ArgsTensor t => [t]
  end.

Definition str_dim (d : option nat) : string :=
  match d with
  | None => "None"
  | Some n => pretty n
  end.

Definition str_list (items : list string) : string :=
  "[" +:+ String.concat ", " items +:+ "]".

(** [str(shapes)] *)
Definition str_shapes (shapes : list (list (option nat))) : string :=
  str_list (map (fun s => str_list (map str_dim s)) shapes).

(** [for shape in shapes], over the shapes still [todo]. *)
Fixpoint linear_shapes_loop (shapes todo : list (list (option nat)))
    (total_arg_size : nat) (n_in_list : list nat) : M (nat * list nat) :=
  match todo with
  | [] => ret (total_arg_size, n_in_list)
  | shape :: rest =>
      if negb (length shape =? 2)%nat
      then raise (ValueError ("Linear is expecting 2D arguments: " +:+ str_shapes shapes))
      else match nth 1 shape None with
           | Some (S k) =>
               linear_shapes_loop shapes rest (total_arg_size + S k) (n_in_list ++ [S k])
           | _ =>
               raise (ValueError ("Linear expects shape[1] of arguments: "
                                    +:+ str_shapes shapes))
           end
  end.

(** [scope or "Linear"] *)
Definition scope_or (scope : option string) (default : string) : string :=
  match scope with
  | None | Some EmptyString => default
  | Some s => s
  end.

(** The [with] block of [linear]: it ends either at [return res] or with the
    bias variable in hand. *)
Definition linear_body (args : list Tensor) (n_in_list : list nat)
    (output_size : nat) (bias : bool) (bias_start : R) (identity : Z)
  : M (Tensor * option Tensor) :=
  initial <- fixed_initializer n_in_list output_size identity ;;
  matrix <- get_variable "Matrix" None initial ;;
  res <- match args with
         | [a] => tf_matmul a matrix
         | _ => c <- tf_concat1 args ;; tf_matmul c matrix
         end ;;
  if negb bias then ret (res, None)
  else bias_term <- get_variable "Bias" (Some [Some output_size])
                      (constant_initializer bias_start output_size) ;;
       ret (res, Some bias_term).

Definition linear (args : py_args) (output_size : nat) (bias : bool)
    (bias_start : R) (scope : option string) (identity : Z) : M Tensor :=
  b <- truthy args ;;
  py_assert b ;;;
  let args := as_list args in
  let shapes := map get_shape args in
  sizes <- linear_shapes_loop shapes shapes 0 [] ;;
  r <- variable_scope (scope_or scope "Linear")
         (linear_body args (snd sizes) output_size bias bias_start identity) ;;
  match r with
  | (res, None) => ret res
  | (res, Some bias_term) => tf_add res bias_term
  end.

(** ** The cells *)

Inductive cell_class :=
| tanhRNNCell
| IRNNCell
| LSTMCell
| complex_RNNCell
| uRNN.

(** [steph_RNNCell.__init__] *)
Record steph_RNNCell := mkCell {
  cell_class_of : cell_class;
  _input_size : nat;
  _state_size : nat;
  _output_size : nat }.

Definition tanhRNNCell_call (self : steph_RNNCell) (inputs state : Tensor)
    (scope : string) : M (Tensor * Tensor) :=
  variable_scope scope
    (t <- linear (ArgsList [inputs; state]) (_state_size self) true 0
            (Some "Linear/Transition") (-1) ;;
     let new_state := tf_tanh t in
     output <- linear (ArgsTensor new_state) (_output_size self) true 0
                 (Some "Linear/Output") (-1) ;;
     ret (output, new_state)).

Definition IRNNCell_call (self : steph_RNNCell) (inputs state : Tensor)
    (scope : string) : M (Tensor * Tensor) :=
  variable_scope scope
    (t <- linear (ArgsList [inputs; state]) (_state_size self) true 0
            (Some "Linear/Transition") 1 ;;
     let new_state := tf_nn_relu t in
     output <- linear (ArgsTensor new_state) (_output_size self) true 0
                 (Some "Linear/Output") (-1) ;;
     ret (output, new_state)).

Definition LSTMCell_call (self : steph_RNNCell) (inputs state : Tensor)
    (scope : string) : M (Tensor * Tensor) :=
  raise (NotImplementedError []).

Definition complex_RNNCell_call (self : steph_RNNCell) (inputs state : Tensor)
    (scope : string) : M (Tensor * Tensor) :=
  raise (NotImplementedError []).

Definition uRNN_call (self : steph_RNNCell) (inputs state : Tensor)
    (scope : string) : M (Tensor * Tensor) :=
  raise (NotImplementedError []).

(** [cell(inputs, state)]: the method of the cell's class, with the default
    scope of that class. *)
Definition cell_call (cell : steph_RNNCell) (inputs state : Tensor)
  : M (Tensor * Tensor) :=
  match cell_class_of cell with
  | tanhRNNCell => tanhRNNCell_call cell inputs state "tanhRNN"
  | IRNNCell => IRNNCell_call cell inputs state "IRNN"
  | LSTMCell => LSTMCell_call cell inputs state "LSTM"
  | complex_RNNCell => complex_RNNCell_call cell inputs state "complex_RNN"
  | uRNN => uRNN_call cell inputs state "uRNN"
  end.

(** The framework's [RNNCell.zero_state(batch_size, dtype)]. *)
Definition zero_state (cell : steph_RNNCell) (batch_size : nat) : Tensor :=
  mkTensor [None; Some (_state_size cell)]
           (Mat (repeat (repeat 0%R (_state_size cell)) batch_size)).

(** ** RNN *)

(** [tf.shape(x)[0]] *)
Definition tf_shape0 (x : Tensor) : nat :=
  match tval x with
  | Vec v => length v
  | Mat rows => length rows
  | Cube items => length items
  end.

(** [[tf.squeeze(input_, [1]) for input_ in tf.split(1, sequence_length, x)]]:
    the time axis of a (batch, time, features) tensor is cut in
    [sequence_length] pieces, which must each have length 1 to be squeezed. *)
Definition split_squeeze (sequence_length : nat) (x : Tensor) : M (list Tensor) :=
  match tval x with
  | Cube items =>
      if (0 <? sequence_length)%nat
         && forallb (fun item => (length item =? sequence_length)%nat) items
      then ret (map (fun t =>
                  mkTensor [nth 0 (get_shape x) None; nth 2 (get_shape x) None]
                           (Mat (map (fun item => nth t item []) items)))
                  (seq 0 sequence_length))
      else raise (OpError "Split")
  | _ => raise (OpError "Split")
  end.

(** The loop of the framework's [rnn.rnn], from step [time] on: the cell is
    folded over the inputs, and from the second step on the scope is in reuse
    mode. *)
Fixpoint rnn_steps (cell : steph_RNNCell) (time : nat) (inputs : list Tensor)
    (state : Tensor) : M (list Tensor * Tensor) :=
  match inputs with
  | [] => ret ([], state)
  | input_ :: rest =>
      (if (0 <? time)%nat then reuse_variables else ret tt) ;;;
      step <- cell_call cell input_ state ;;
      later <- rnn_steps cell (S time) rest (snd step) ;;
      ret (fst step :: fst later, snd later)
  end.

(** [rnn.rnn(cell, inputs, initial_state=state_0)] *)
Definition rnn_rnn (cell : steph_RNNCell) (inputs : list Tensor)
    (initial_state : Tensor) : M (list Tensor * Tensor) :=
  match inputs with
  | [] => raise (ValueError "inputs must not be empty")
  | _ => variable_scope "RNN" (rnn_steps cell 0 inputs initial_state)
  end.

Definition RNN (cell_type : string) (x : Tensor)
    (input_size state_size output_size sequence_length : nat) : M (list Tensor) :=
  let batch_size := tf_shape0 x in
  cell <- (if String.eqb cell_type "tanhRNN"
           then ret (mkCell tanhRNNCell input_size state_size output_size)
           else if String.eqb cell_type "IRNN"
           then ret (mkCell IRNNCell input_size state_size output_size)
           else raise (NotImplementedError [])) ;;
  let state_0 := zero_state cell batch_size in
  inputs <- split_squeeze sequence_length x ;;
  r <- rnn_rnn cell inputs state_0 ;;
  ret (fst r).

(** ** Closed forms used in the proofs *)

(** The rows the loop of [fixed_initializer] writes for the blocks of
    [n_in_list], numbered from [i], when the identity block is square. *)
Fixpoint written_rows (n_in_list : list nat) (i n_out : nat) (identity : Z)
    (s : nat -> R) : list (list R) :=
  match n_in_list with
  | [] => []
  | n_in :: rest =>
      if (Z.of_nat i =? identity)%Z
      then nd_rows (np_identity n_in) ++ written_rows rest (S i) n_out identity s
      else uniform_rows (- sqrt (6 / INR (n_in + n_out))) (sqrt (6 / INR (n_in + n_out)))
             n_in n_out s
           ++ written_rows rest (S i) n_out identity (rng_drop (n_in * n_out) s)
  end.

(** The generator after that loop. *)
Fixpoint rng_after (n_in_list : list nat) (i n_out : nat) (identity : Z)
    (s : nat -> R) : nat -> R :=
  match n_in_list with
  | [] => s
  | n_in :: rest =>
      if (Z.of_nat i =? identity)%Z then rng_after rest (S i) n_out identity s
      else rng_after rest (S i) n_out identity (rng_drop (n_in * n_out) s)
  end.

Definition set_rng (s : nat -> R) (w : world) : world :=
  mkWorld s (uninit w) (scope_name w) (reuse w) (variables w).


(** The first row of the block of index [i]. *)
Definition block_offset (n_in_list : list nat) (i : nat) : nat :=
  sum_list (take i n_in_list).

(** The identity block, if there is one, maps [n_out] inputs to [n_out] outputs. *)
Definition square_identity (n_in_list : list nat) (n_out : nat) (identity : Z) : Prop :=
  forall k n_in, n_in_list !! k = Some n_in -> Z.of_nat k = identity -> n_in = n_out.

(** The step shared by [tanhRNNCell.__call__] and [IRNNCell.__call__], which
    differ in the nonlinearity and in the [identity] given to the transition. *)
Definition cell_step (f : R -> R) (identity : Z) (self : steph_RNNCell)
    (inputs state : Tensor) (scope : string) : M (Tensor * Tensor) :=
  variable_scope scope
    (t <- linear (ArgsList [inputs; state]) (_state_size self) true 0
            (Some "Linear/Transition") identity ;;
     let new_state := tensor_map f t in
     output <- linear (ArgsTensor new_state) (_output_size self) true 0
                 (Some "Linear/Output") (-1) ;;
     ret (output, new_state)).

(** A world to run examples in: the generator always hands out [0], fresh
    memory holds [0], no scope is open, nothing is in reuse mode and no
    parameter is registered. *)
Definition world0 : world :=
  mkWorld (fun _ => 0%R) (fun _ _ => 0%R) "" false ∅.

(** ** Vocabulary of the statements *)

(** [shape[1]] read as a number, [0] when it is unknown. *)
Definition shape_dim (shape : list (option nat)) : nat :=
  match nth 1 shape None with
  | Some k => k
  | None => 0
  end.

Definition feature_dim (t : Tensor) : nat := shape_dim (get_shape t).

Definition rows_of (t : Tensor) : list (list R) :=
  match tval t with
  | Mat rows => rows
  | _ => []
  end.

(** A shape [linear] rejects: not of rank 2, or with a feature dimension that
    is unknown or zero. *)
Definition offending (shape : list (option nat)) : Prop :=
  length shape <> 2 \/ nth 1 shape None = None \/ nth 1 shape None = Some 0.

(** A rank-2 tensor of [B] rows with a known, nonzero feature dimension. *)
Definition valid_arg (B : nat) (t : Tensor) : Prop :=
  exists b k rows,
    get_shape t = [b; Some (S k)] /\ tval t = Mat rows /\
    length rows = B /\ Forall (fun r => length r = S k) rows.

(** Row [b] of the concatenation of [args] along the feature axis is the
    rows [b] of the arguments one after the other, in the order of [args]. *)
Definition concat_features (B : nat) (args : list Tensor) : list (list R) :=
  map (fun b => concat (map (fun a => nth b (rows_of a) []) args)) (seq 0 B).

(** [c] added to every entry: a bias of constant [c] broadcast over the batch. *)
Definition add_bias (c : R) (rows : list (list R)) : list (list R) :=
  map (map (fun x => (x + c)%R)) rows.

(** The names under which a call of [linear] registers its parameters. *)
Definition linear_scope (w : world) (scope : option string) : string :=
  scope_join (scope_name w) (scope_or scope "Linear").

Definition matrix_name (w : world) (scope : option string) : string :=
  scope_join (linear_scope w scope) "Matrix".

Definition bias_name (w : world) (scope : option string) : string :=
  scope_join (linear_scope w scope) "Bias".

(** [res] in [linear]: the one argument, or the arguments joined along the
    feature axis, times [matrix]. *)
Definition matmul_of_args (args : list Tensor) (matrix : Tensor) : M Tensor :=
  match args with
  | [a] => tf_matmul a matrix
  | _ => c <- tf_concat1 args ;; tf_matmul c matrix
  end.

(** Run in scope [p], the computation leaves the scope as it found it and
    changes no parameter outside [names]. *)
Definition touches_only {A} (p : string) (names : list string) (c : M A) : Prop :=
  forall w, scope_name w = p ->
    scope_name (snd (c w)) = p /\
    forall name, name ∉ names -> variables (snd (c w)) !! name = variables w !! name.

(** The world inside [with vs.variable_scope(scope)]. *)
Definition in_scope (w : world) (scope : string) : world :=
  set_scope (scope_join (scope_name w) scope) w.

(** The names under which a cell run in [scope] registers its parameters. *)
Definition cell_parameters (w : world) (scope : string) : list string :=
  [matrix_name (in_scope w scope) (Some "Linear/Transition");
   bias_name (in_scope w scope) (Some "Linear/Transition");
   matrix_name (in_scope w scope) (Some "Linear/Output");
   bias_name (in_scope w scope) (Some "Linear/Output")].

(** No parameter of these names is registered yet. *)
Definition fresh (w : world) (names : list string) : Prop :=
  Forall (fun name => variables w !! name = None) names.

(** The texts an exception carries. *)
Definition exception_texts (e : exception) : list string :=
  match e with
  | AssertionError => []
  | TypeError => []
  | ValueError msg => [msg]
  | NotImplementedError args => args
  | ZeroDivisionError => []
  | OpError op => [op]
  end.

(** An exception indicates an identifier when one of its texts contains it. *)
Definition indicates (e : exception) (ident : string) : Prop :=
  exists text pre post, text ∈ exception_texts e /\ text = pre +:+ ident +:+ post.

Definition zeros (r c : nat) : list (list R) := repeat (repeat 0%R c) r.

(** ** Further vocabulary *)

(** The world with other contents in fresh memory. *)
Definition set_uninit (u : nat -> nat -> R) (w : world) : world :=
  mkWorld (rng w) u (scope_name w) (reuse w) (variables w).

(** Entry-wise sum of two matrices. *)
Definition mat_add (x y : list (list R)) : list (list R) :=
  zip_with (zip_with Rplus) x y.

(** [sum_i(args[i] * W[i])] of the docstring of [linear]: [W[i]] are the
    consecutive row blocks of [W], block [i] as high as [args[i]] is wide. *)
Fixpoint sum_of_products (B n : nat) (args : list Tensor) (W : list (list R))
  : list (list R) :=
  match args with
  | [] => zeros B n
  | a :: rest =>
      mat_add (matmul_rows (rows_of a) (take (feature_dim a) W) n)
              (sum_of_products B n rest (drop (feature_dim a) W))
  end.

(** A (batch, time, features) tensor of [B] sequences of [T] steps, with a
    known nonzero number of features. *)
Definition valid_sequence (B T : nat) (x : Tensor) : Prop :=
  exists b k items,
    get_shape x = [b; Some T; Some (S k)] /\ tval x = Cube items /\
    length items = B /\
    Forall (fun item => length item = T /\ Forall (fun r => length r = S k) item) items.

(** The computation replaces no registered parameter: what the store holds
    under a name before, it holds under that name after. *)
Definition keeps {A} (c : M A) : Prop :=
  forall w name t,
    variables w !! name = Some t -> variables (snd (c w)) !! name = Some t.

(** * Proofs *)

(** ** Rounding to float32 *)

Lemma round_half_even_near x : (- (1 / 2) <= IZR (round_half_even x) - x <= 1 / 2)%R.
Proof.
  unfold round_half_even. destruct (base_Int_part x) as [H1 H2].
  set (n := Int_part x) in *.
  destruct (Rlt_dec (x - IZR n) (1 / 2)) as [Hlt|Hge]; [lra|].
  destruct (Rlt_dec (1 / 2) (x - IZR n)) as [Hgt|Hle].
  - rewrite plus_IZR. lra.
  - destruct (Z.even n); [|rewrite plus_IZR]; lra.
Qed.

Lemma round_half_even_inside x z :
  (IZR z - 1 / 2 < x < IZR z + 1 / 2)%R -> round_half_even x = z.
Proof.
  intros Hx. pose proof (round_half_even_near x) as Hn.
  assert (H : (IZR (round_half_even x - z) < 1 /\ -1 < IZR (round_half_even x - z))%R).
  { rewrite minus_IZR. lra. }
  destruct H as [Hu Hl]. apply lt_IZR in Hu, Hl. lia.
Qed.

Lemma round_half_even_IZR z : round_half_even (IZR z) = z.
Proof. apply round_half_even_inside. lra. Qed.



Lemma powerRZ_2_lt e1 e2 : (e1 < e2)%Z -> (powerRZ 2 e1 < powerRZ 2 e2)%R.
Proof.
  intros H. replace e2 with (e1 + (e2 - e1))%Z by lia.
  rewrite powerRZ_add by lra.
  assert (H0 : (0 < powerRZ 2 e1)%R) by (apply powerRZ_lt; lra).
  assert (H1 : (1 < powerRZ 2 (e2 - e1))%R).
  { destruct (e2 - e1)%Z as [|p|p] eqn:E; try lia.
    cbn. apply Rlt_pow_R1; [lra|]. lia. }
  nra.
Qed.

Lemma powerRZ_2_le e1 e2 : (e1 <= e2)%Z -> (powerRZ 2 e1 <= powerRZ 2 e2)%R.
Proof.
  intros H. destruct (Z.eq_dec e1 e2) as [->|Hne]; [lra|].
  apply Rlt_le, powerRZ_2_lt. lia.
Qed.

Lemma binade_from_spec n :
  forall e a,
    let r := binade_from n e a in
    (e <= r <= e + Z.of_nat n)%Z /\
    ((r < e + Z.of_nat n)%Z -> (a < powerRZ 2 (r + 1))%R) /\
    ((e < r)%Z -> (powerRZ 2 r <= a)%R).
Proof.
  induction n as [|k IH]; intros e a; cbn zeta.
  - cbn [binade_from]. split; [lia|]. split; intros; lia.
  - cbn [binade_from]. destruct (Rlt_dec a (powerRZ 2 (e + 1))) as [Hlt|Hge].
    + split; [lia|]. split; [done|]. intros; lia.
    + destruct (IH (e + 1)%Z a) as (Hr & Hup & Hlow).
      split; [lia|]. split; [intros; apply Hup; lia|].
      intros _. destruct (Z.eq_dec (binade_from k (e + 1) a) (e + 1)%Z) as [->|Hne]; [lra|].
      apply Hlow. lia.
Qed.

Lemma binade_range x : (-126 <= binade x <= 127)%Z.
Proof. destruct (binade_from_spec 253 (-126) (Rabs x)) as [H _]. unfold binade. lia. Qed.

Lemma binade_upper x : (binade x < 127)%Z -> (Rabs x < powerRZ 2 (binade x + 1))%R.
Proof.
  destruct (binade_from_spec 253 (-126) (Rabs x)) as (_ & H & _). unfold binade.
  intros Hr. apply H. lia.
Qed.

Lemma binade_lower x : (-126 < binade x)%Z -> (powerRZ 2 (binade x) <= Rabs x)%R.
Proof.
  destruct (binade_from_spec 253 (-126) (Rabs x)) as (_ & _ & H). unfold binade.
  intros Hr. by apply H.
Qed.

Lemma binade_unique x e :
  (-126 <= e <= 127)%Z ->
  ((-126 < e)%Z -> (powerRZ 2 e <= Rabs x)%R) ->
  ((e < 127)%Z -> (Rabs x < powerRZ 2 (e + 1))%R) ->
  binade x = e.
Proof.
  intros He Hlow Hup. pose proof (binade_range x) as Hr.
  destruct (Z.lt_trichotomy (binade x) e) as [Hlt|[Heq|Hgt]]; [exfalso|done|exfalso].
  - pose proof (binade_upper x ltac:(lia)) as H1. pose proof (Hlow ltac:(lia)) as H2.
    pose proof (powerRZ_2_le (binade x + 1) e ltac:(lia)). lra.
  - pose proof (binade_lower x ltac:(lia)) as H1. pose proof (Hup ltac:(lia)) as H2.
    pose proof (powerRZ_2_le (e + 1) (binade x) ltac:(lia)). lra.
Qed.




Lemma float32_scaled x e m :
  binade x = e -> x = (IZR m * powerRZ 2 (e - 23))%R -> float32 x = x.
Proof.
  intros He Hx. unfold float32. rewrite He.
  assert (H0 : (0 < powerRZ 2 (e - 23))%R) by (apply powerRZ_lt; lra).
  replace (x / powerRZ 2 (e - 23))%R with (IZR m) by (rewrite Hx; field; lra).
  by rewrite round_half_even_IZR.
Qed.

Lemma float32_0 : float32 0 = 0%R.
Proof.
  unfold float32. replace (0 / powerRZ 2 (binade 0 - 23))%R with (IZR 0).
  - rewrite round_half_even_IZR. ring.
  - unfold Rdiv. ring.
Qed.

Lemma float32_1 : float32 1 = 1%R.
Proof.
  apply (float32_scaled 1 0 8388608).
  - apply binade_unique; [lia| |]; intros _; rewrite Rabs_R1; simpl; lra.
  - simpl. lra.
Qed.







(** ** Arrays built by index *)

Lemma tabulate_length r c f : length (tabulate r c f) = r.
Proof. unfold tabulate. by rewrite length_map, length_seq. Qed.

Lemma map_seq_ext {A} (f g : nat -> A) a n :
  (forall i, a <= i < a + n -> f i = g i) -> map f (seq a n) = map g (seq a n).
Proof.
  intros H. apply map_ext_in. intros i Hi. apply in_seq in Hi. apply H. lia.
Qed.

Lemma tabulate_ext r c f g :
  (forall i j, i < r -> j < c -> f i j = g i j) -> tabulate r c f = tabulate r c g.
Proof.
  intros H. unfold tabulate. apply map_seq_ext. intros i Hi.
  apply map_seq_ext. intros j Hj. apply H; lia.
Qed.

Lemma tabulate_nth r c f i :
  i < r -> nth i (tabulate r c f) [] = map (f i) (seq 0 c).
Proof.
  intros Hi. unfold tabulate.
  rewrite (nth_indep _ [] (map (fun j => f 0 j) (seq 0 c))) by (by rewrite length_map, length_seq).
  rewrite (map_nth (fun i => map (fun j => f i j) (seq 0 c)) (seq 0 r) 0 i).
  rewrite seq_nth by done. simpl. apply map_ext. done.
Qed.

Lemma tabulate_get r c f s i j :
  i < r -> j < c -> nd_get (mkArray s (tabulate r c f)) i j = f i j.
Proof.
  intros Hi Hj. unfold nd_get. simpl. rewrite tabulate_nth by done.
  rewrite (nth_indep _ 0%R (f i 0)) by (by rewrite length_map, length_seq).
  rewrite (map_nth (f i) (seq 0 c) 0 j). by rewrite seq_nth.
Qed.


(** ** Broadcasting and slice assignment *)

Lemma broadcast_index n i : i < n -> (if (n =? 1)%nat then 0 else i) = i.
Proof. intros Hi. destruct (Nat.eqb_spec n 1); lia. Qed.

Lemma broadcast_to_same r c f :
  broadcast_to (mkArray (r, c) (tabulate r c f)) r c = Some (tabulate r c f).
Proof.
  unfold broadcast_to. simpl. rewrite !Nat.eqb_refl. simpl. f_equal.
  apply tabulate_ext. intros i j Hi Hj.
  rewrite !broadcast_index by done. by apply tabulate_get.
Qed.

Lemma broadcast_to_identity_fails n c :
  n <> c -> n <> 1 -> broadcast_to (np_identity n) n c = None.
Proof.
  intros Hc H1. unfold broadcast_to. simpl.
  destruct (Nat.eqb_spec n c); [done|]. destruct (Nat.eqb_spec n 1); [done|].
  by rewrite andb_false_r.
Qed.

Lemma map_const_seq {A} (x : A) a n : map (fun _ => x) (seq a n) = repeat x n.
Proof. revert a. induction n as [|n IH]; intros a; simpl; [done|]. by rewrite IH. Qed.

Lemma broadcast_to_identity_one c :
  broadcast_to (np_identity 1) 1 c = Some [repeat 1%R c].
Proof.
  unfold broadcast_to. simpl. rewrite orb_true_r. f_equal.
  unfold tabulate. simpl. f_equal. apply map_const_seq.
Qed.

Lemma setitem_rows_ok matrix nr nc rm n values blk w :
  nd_shape matrix = (nr, nc) ->
  length (nd_rows matrix) = nr ->
  rm + n <= nr ->
  broadcast_to values n nc = Some blk ->
  setitem_rows matrix rm (rm + n) values w =
    (Ok (mkArray (nr, nc)
           (firstn rm (nd_rows matrix) ++ blk ++ skipn (rm + n) (nd_rows matrix))), w).
Proof.
  intros Hs Hl Hle Hb. unfold setitem_rows. rewrite Hs.
  replace (Nat.min rm nr) with rm by lia.
  replace (Nat.max rm (Nat.min (rm + n) nr)) with (rm + n) by lia.
  replace (rm + n - rm) with n by lia. by rewrite Hb.
Qed.

Lemma setitem_rows_fails matrix nr nc rm n values w :
  nd_shape matrix = (nr, nc) ->
  rm + n <= nr ->
  broadcast_to values n nc = None ->
  setitem_rows matrix rm (rm + n) values w =
    (Raise (ValueError ("could not broadcast input array from shape "
                          +:+ str_np_shape (nd_shape values) +:+ " into shape "
                          +:+ str_np_shape (n, nc))), w).
Proof.
  intros Hs Hle Hb. unfold setitem_rows. rewrite Hs.
  replace (Nat.min rm nr) with rm by lia.
  replace (Nat.max rm (Nat.min (rm + n) nr)) with (rm + n) by lia.
  replace (rm + n - rm) with n by lia. by rewrite Hb.
Qed.

(** ** The loop of fixed_initializer *)

Lemma broadcast_to_square n :
  broadcast_to (np_identity n) n n = Some (nd_rows (np_identity n)).
Proof. apply broadcast_to_same. Qed.

Lemma broadcast_to_uniform low high r c s :
  broadcast_to (mkArray (r, c) (uniform_rows low high r c s)) r c
  = Some (uniform_rows low high r c s).
Proof. apply broadcast_to_same. Qed.

Lemma block_scale_ok n_in n_out w :
  n_in + n_out <> 0 ->
  block_scale n_in n_out w = (Ok (sqrt (6 / INR (n_in + n_out))), w).
Proof.
  intros H. unfold block_scale. by destruct (Nat.eqb_spec (n_in + n_out) 0).
Qed.

Lemma splice_take {A} (l blk : list A) rm n :
  rm + n <= length l -> length blk = n ->
  take (rm + n) (take rm l ++ blk ++ drop (rm + n) l) = take rm l ++ blk.
Proof.
  intros Hl Hb. rewrite app_assoc. rewrite take_app_length'; [done|].
  rewrite length_app, length_take. lia.
Qed.

Lemma splice_drop {A} (l blk : list A) rm n k :
  rm + n <= length l -> length blk = n ->
  drop (rm + n + k) (take rm l ++ blk ++ drop (rm + n) l) = drop (rm + n + k) l.
Proof.
  intros Hl Hb. rewrite app_assoc.
  rewrite drop_app_add'; [| rewrite length_app, length_take; lia].
  by rewrite drop_drop.
Qed.

Lemma splice_length {A} (l blk : list A) rm n :
  rm + n <= length l -> length blk = n ->
  length (take rm l ++ blk ++ drop (rm + n) l) = length l.
Proof. intros Hl Hb. rewrite !length_app, length_take, length_drop. lia. Qed.

Ltac step_loop :=
  match goal with
  | IH : context [fixed_initializer_loop ?rest _ _ _ _ _ _ = _]
    |- context [fixed_initializer_loop ?rest ?i ?n_out ?identity ?m ?rm ?w] =>
      rewrite (IH i m rm _ w eq_refl);
      [ | cbn [nd_rows]; rewrite splice_length; done | done | done | done ]
  end.

Lemma loop_closed_form n_out identity l :
  forall i matrix rm nr w,
    nd_shape matrix = (nr, n_out) ->
    length (nd_rows matrix) = nr ->
    rm + sum_list l <= nr ->
    Forall (fun n_in => n_in + n_out <> 0) l ->
    (forall k n_in, l !! k = Some n_in -> Z.of_nat (i + k) = identity -> n_in = n_out) ->
    fixed_initializer_loop l i n_out identity matrix rm w =
      (Ok (mkArray (nr, n_out)
             (take rm (nd_rows matrix) ++ written_rows l i n_out identity (rng w)
                ++ drop (rm + sum_list l) (nd_rows matrix))),
       set_rng (rng_after l i n_out identity (rng w)) w).
Proof.
  induction l as [|n_in rest IH]; intros i matrix rm nr w Hs Hl Hle Hnz Hsq.
  - simpl. unfold ret, set_rng. destruct matrix as [sh rows], w. simpl in *. subst sh.
    by rewrite Nat.add_0_r, take_drop.
  - simpl in Hle. apply Forall_cons in Hnz as [Hnz0 Hnz].
    assert (forall k n, rest !! k = Some n -> Z.of_nat (S i + k) = identity -> n = n_out)
      as Hsq'.
    { intros k n Hk Hi. apply (Hsq (S k)); [done|]. rewrite <- Hi. lia. }
    assert (rm + n_in <= length (nd_rows matrix)) as Hfit' by lia.
    assert (rm + n_in <= nr) as Hfit by lia.
    assert (rm + n_in + sum_list rest <= nr) as Hle' by lia.
    cbn [fixed_initializer_loop written_rows rng_after].
    replace (sum_list (n_in :: rest)) with (n_in + sum_list rest) by done.
    rewrite Nat.add_assoc.
    destruct (Z.eqb_spec (Z.of_nat i) identity) as [Hid|Hid].
    + assert (n_in = n_out) as Hn.
      { apply (Hsq 0); [done|]. by rewrite Nat.add_0_r. }
      assert (length (nd_rows (np_identity n_in)) = n_in) as Hb by apply tabulate_length.
      unfold bind at 1. unfold bind at 1. unfold ret at 1.
      rewrite (setitem_rows_ok _ nr n_out rm n_in _ (nd_rows (np_identity n_in)) _ Hs Hl Hfit)
        by (rewrite Hn; apply broadcast_to_square).
      step_loop.
      cbn [nd_rows]. rewrite splice_take, splice_drop by done. by rewrite <- !app_assoc.
    + set (scale := sqrt (6 / INR (n_in + n_out))).
      assert (length (uniform_rows (- scale) scale n_in n_out (rng w)) = n_in) as Hb
        by apply tabulate_length.
      unfold bind at 1. unfold bind at 1. unfold bind at 1.
      rewrite block_scale_ok by done. fold scale.
      unfold np_random_uniform.
      rewrite (setitem_rows_ok _ nr n_out rm n_in _ _ _ Hs Hl Hfit
                 (broadcast_to_uniform _ _ _ _ _)).
      step_loop.
      cbn [nd_rows rng]. rewrite splice_take, splice_drop by done. by rewrite <- !app_assoc.
Qed.

(** ** fixed_initializer in closed form *)

Lemma fixed_initializer_array_ok l n_out identity w :
  Forall (fun n_in => n_in + n_out <> 0) l ->
  square_identity l n_out identity ->
  fixed_initializer_array l n_out identity w =
    (Ok (mkArray (sum_list l, n_out) (written_rows l 0 n_out identity (rng w))),
     set_rng (rng_after l 0 n_out identity (rng w)) w).
Proof.
  intros Hnz Hsq. unfold fixed_initializer_array, bind, np_empty.
  rewrite (loop_closed_form n_out identity l 0
             (mkArray (sum_list l, n_out) (tabulate (sum_list l) n_out (uninit w)))
             0 (sum_list l) w eq_refl);
    [ | apply tabulate_length | done | done | done ].
  cbn [nd_rows]. rewrite take_0, drop_ge by (rewrite tabulate_length; simpl; lia).
  by rewrite app_nil_r.
Qed.

Lemma fixed_initializer_ok l n_out identity w :
  Forall (fun n_in => n_in + n_out <> 0) l ->
  square_identity l n_out identity ->
  fixed_initializer l n_out identity w =
    (Ok (mkTensor [Some (sum_list l); Some n_out]
           (Mat (map (map float32) (written_rows l 0 n_out identity (rng w))))),
     set_rng (rng_after l 0 n_out identity (rng w)) w).
Proof.
  intros Hnz Hsq. unfold fixed_initializer, bind.
  by rewrite fixed_initializer_array_ok.
Qed.

Lemma written_rows_length n_out identity l :
  forall i s, length (written_rows l i n_out identity s) = sum_list l.
Proof.
  induction l as [|n_in rest IH]; intros i s; [done|].
  cbn [written_rows]. replace (sum_list (n_in :: rest)) with (n_in + sum_list rest) by done.
  destruct (Z.of_nat i =? identity)%Z; rewrite length_app, IH; f_equal; apply tabulate_length.
Qed.





(** ** The blocks of the matrix fixed_initializer returns *)

Lemma map_repeat {A B} (f : A -> B) x n : map f (repeat x n) = repeat (f x) n.
Proof. induction n as [|n IH]; [done|]. cbn. by rewrite IH. Qed.


(** The entries of [np.identity] are float32 numbers. *)
Lemma float32_identity n :
  map (map float32) (nd_rows (np_identity n)) = nd_rows (np_identity n).
Proof.
  cbn [np_identity nd_rows]. unfold tabulate. rewrite map_map. apply map_ext. intros i.
  rewrite map_map. apply map_ext. intros j.
  destruct (i =? j)%nat; [apply float32_1|apply float32_0].
Qed.




Lemma written_rows_block_length n_out identity n_in rest i s :
  exists blk,
    written_rows (n_in :: rest) i n_out identity s
    = blk ++ written_rows rest (S i) n_out identity
               (if (Z.of_nat i =? identity)%Z then s else rng_drop (n_in * n_out) s)
    /\ length blk = n_in.
Proof.
  cbn [written_rows]. destruct (Z.of_nat i =? identity)%Z;
    eexists; (split; [reflexivity | apply tabulate_length]).
Qed.

(** The rows of the identity block are those of [np.identity]. *)
Lemma written_rows_identity n_out identity l :
  forall i s k n,
    l !! k = Some n ->
    Z.of_nat (i + k) = identity ->
    take n (drop (block_offset l k) (written_rows l i n_out identity s))
    = nd_rows (np_identity n).
Proof.
  induction l as [|n0 rest IH]; intros i s k n Hk Hid; [done|].
  destruct k as [|k].
  - simpl in Hk. injection Hk as ->. rewrite Nat.add_0_r in Hid.
    cbn [written_rows]. apply Z.eqb_eq in Hid. rewrite Hid.
    change (block_offset (n :: rest) 0) with 0. rewrite drop_0.
    rewrite take_app_length'; [done|]. symmetry. apply tabulate_length.
  - simpl in Hk.
    destruct (written_rows_block_length n_out identity n0 rest i s) as (blk & -> & Hb).
    unfold block_offset. cbn [take].
    replace (sum_list (n0 :: take k rest)) with (n0 + block_offset rest k) by done.
    rewrite drop_app_add' by done.
    apply IH; [done|]. rewrite <- Hid. lia.
Qed.

(** An identity block that is neither square nor a single row stops the loop. *)
Lemma loop_identity_mismatch n_out identity l :
  forall i matrix rm nr w k n,
    nd_shape matrix = (nr, n_out) ->
    length (nd_rows matrix) = nr ->
    rm + sum_list l <= nr ->
    Forall (fun n_in => n_in + n_out <> 0) l ->
    l !! k = Some n ->
    Z.of_nat (i + k) = identity ->
    n <> n_out -> n <> 1 ->
    exists w',
      fixed_initializer_loop l i n_out identity matrix rm w
      = (Raise (ValueError ("could not broadcast input array from shape "
                              +:+ str_np_shape (n, n) +:+ " into shape "
                              +:+ str_np_shape (n, n_out))), w').
Proof.
  induction l as [|n0 rest IH]; intros i matrix rm nr w k n Hs Hl Hle Hnz Hk Hid Hne H1;
    [done|].
  simpl in Hle. apply Forall_cons in Hnz as [Hnz0 Hnz].
  assert (rm + n0 <= nr) as Hfit by lia.
  cbn [fixed_initializer_loop].
  destruct k as [|k].
  - simpl in Hk. injection Hk as ->. rewrite Nat.add_0_r in Hid.
    apply Z.eqb_eq in Hid. rewrite Hid.
    unfold bind at 1. unfold bind at 1. unfold ret at 1.
    rewrite (setitem_rows_fails _ nr n_out rm n _ _ Hs Hfit)
      by (by apply broadcast_to_identity_fails).
    by eexists.
  - simpl in Hk.
    destruct (Z.eqb_spec (Z.of_nat i) identity) as [E|_]; [lia|].
    unfold bind at 1. unfold bind at 1. unfold bind at 1.
    rewrite block_scale_ok by done. unfold np_random_uniform.
    rewrite (setitem_rows_ok _ nr n_out rm n0 _ _ _ Hs Hl Hfit
               (broadcast_to_uniform _ _ _ _ _)).
    eapply (IH (S i) _ (rm + n0) nr _ k n); try done.
    + cbn [nd_rows]. rewrite splice_length; [done|lia|apply tabulate_length].
    + lia.
    + rewrite <- Hid. lia.
Qed.

(** An identity block of one row is broadcast over the columns: the loop goes
    on, and the row of the block holds 1 in every column. *)
Lemma loop_identity_one_row n_out identity l :
  forall i matrix rm nr w k,
    nd_shape matrix = (nr, n_out) ->
    length (nd_rows matrix) = nr ->
    rm + sum_list l <= nr ->
    Forall (fun n_in => n_in + n_out <> 0) l ->
    l !! k = Some 1 ->
    Z.of_nat (i + k) = identity ->
    exists rows w',
      fixed_initializer_loop l i n_out identity matrix rm w
      = (Ok (mkArray (nr, n_out) rows), w') /\
      length rows = nr /\
      rows !! (rm + block_offset l k) = Some (repeat 1%R n_out).
Proof.
  induction l as [|n0 rest IH]; intros i matrix rm nr w k Hs Hl Hle Hnz Hk Hid; [done|].
  replace (sum_list (n0 :: rest)) with (n0 + sum_list rest) in Hle by done.
  apply Forall_cons in Hnz as [Hnz0 Hnz].
  assert (rm + n0 <= nr) as Hfit by lia.
  cbn [fixed_initializer_loop].
  destruct k as [|k].
  - simpl in Hk. injection Hk as ->. rewrite Nat.add_0_r in Hid.
    apply Z.eqb_eq in Hid. rewrite Hid.
    unfold bind at 1. unfold bind at 1. unfold ret at 1.
    rewrite (setitem_rows_ok _ nr n_out rm 1 _ _ _ Hs Hl Hfit
               (broadcast_to_identity_one n_out)).
    apply Z.eqb_eq in Hid.
    set (m := mkArray (nr, n_out)
                (take rm (nd_rows matrix) ++ [repeat 1%R n_out]
                   ++ drop (rm + 1) (nd_rows matrix))).
    assert (Hm : length (nd_rows m) = nr).
    { cbn [m nd_rows]. rewrite splice_length; [done|lia|done]. }
    rewrite (loop_closed_form n_out identity rest (S i) m (rm + 1) nr w eq_refl Hm);
      [|lia|done|intros j n_in _ Hj; lia].
    eexists _, _. split; [reflexivity|].
    change (block_offset (1 :: rest) 0) with 0. rewrite Nat.add_0_r.
    split.
    + rewrite !length_app, length_take, written_rows_length, length_drop. lia.
    + rewrite lookup_app_l by (rewrite length_take; lia).
      rewrite lookup_take_lt by lia. cbn [m nd_rows].
      rewrite lookup_app_r by (rewrite length_take; lia).
      rewrite length_take. by replace (rm - rm `min` length (nd_rows matrix)) with 0 by lia.
  - simpl in Hk.
    destruct (Z.eqb_spec (Z.of_nat i) identity) as [E|_]; [lia|].
    unfold bind at 1. unfold bind at 1. unfold bind at 1.
    rewrite block_scale_ok by done. unfold np_random_uniform.
    rewrite (setitem_rows_ok _ nr n_out rm n0 _ _ _ Hs Hl Hfit
               (broadcast_to_uniform _ _ _ _ _)).
    unfold block_offset. cbn [take].
    replace (sum_list (n0 :: take k rest)) with (n0 + block_offset rest k) by done.
    rewrite Nat.add_assoc.
    eapply (IH (S i) _ (rm + n0) nr _ k); try done.
    + cbn [nd_rows]. rewrite splice_length; [done|lia|apply tabulate_length].
    + lia.
    + rewrite <- Hid. lia.
Qed.

(** C2, as the code has it: with [identity = i], block [i] of the returned
    matrix is the identity matrix when [n_in_list[i] = n_out]; when
    [n_in_list[i]] differs from [n_out] and from 1 the call fails with the
    [ValueError] of the array assignment; and when [n_in_list[i] = 1] the call
    does not fail, whatever [n_out]: the one row of the block holds 1 in every
    column. *)
Theorem fixed_initializer_identity_block (n_in_list : list nat) (n_out i n_i : nat)
    (w : world) :
  n_in_list !! i = Some n_i ->
  Forall (fun n_in => n_in + n_out <> 0) n_in_list ->
  (n_i = n_out ->
   exists rows w',
     fixed_initializer n_in_list n_out (Z.of_nat i) w
     = (Ok (mkTensor [Some (sum_list n_in_list); Some n_out] (Mat rows)), w')
     /\ take n_i (drop (block_offset n_in_list i) rows) = nd_rows (np_identity n_i))
  /\ (n_i <> n_out -> n_i <> 1 ->
      exists w',
        fixed_initializer n_in_list n_out (Z.of_nat i) w
        = (Raise (ValueError ("could not broadcast input array from shape "
                                +:+ str_np_shape (n_i, n_i) +:+ " into shape "
                                +:+ str_np_shape (n_i, n_out))), w'))
  /\ (n_i = 1 ->
      exists rows w',
        fixed_initializer n_in_list n_out (Z.of_nat i) w
        = (Ok (mkTensor [Some (sum_list n_in_list); Some n_out] (Mat rows)), w')
        /\ rows !! block_offset n_in_list i = Some (repeat 1%R n_out)).
Proof.
  intros Hi Hnz. split; [|split].
  - intros Hn.
    assert (square_identity n_in_list n_out (Z.of_nat i)) as Hsq.
    { intros k n Hk E. apply Nat2Z.inj in E. subst k. congruence. }
    eexists _, _. split; [by apply fixed_initializer_ok|].
    change (map (map float32) ?W) with (map float32 <$> W).
    rewrite <- fmap_drop, <- fmap_take.
    rewrite (written_rows_identity n_out (Z.of_nat i) n_in_list 0 _ i n_i Hi eq_refl).
    apply float32_identity.
  - intros Hne H1. unfold fixed_initializer, fixed_initializer_array, bind, np_empty.
    destruct (loop_identity_mismatch n_out (Z.of_nat i) n_in_list 0
                (mkArray (sum_list n_in_list, n_out)
                   (tabulate (sum_list n_in_list) n_out (uninit w)))
                0 (sum_list n_in_list) w i n_i eq_refl) as [w' ->];
      try done; [apply tabulate_length|]. by eexists.
  - intros ->. unfold fixed_initializer, fixed_initializer_array, bind, np_empty.
    destruct (loop_identity_one_row n_out (Z.of_nat i) n_in_list 0
                (mkArray (sum_list n_in_list, n_out)
                   (tabulate (sum_list n_in_list) n_out (uninit w)))
                0 (sum_list n_in_list) w i eq_refl) as (rows & w' & -> & Hlen & Hrow);
      try done; [apply tabulate_length|].
    eexists _, _. split; [reflexivity|].
    change (map (map float32) rows) with (map float32 <$> rows).
    rewrite list_lookup_fmap. change (0 + ?n) with n in Hrow. cbn [nd_rows].
    rewrite Hrow. cbn.
    by rewrite map_repeat, float32_1.
Qed.

Lemma fixed_initializer_identity_block_witness :
  (exists rows w',
     fixed_initializer [2; 3] 3 1 world0 = (Ok (mkTensor [Some 5; Some 3] (Mat rows)), w')
     /\ take 3 (drop 2 rows) = nd_rows (np_identity 3))
  /\ (exists w',
        fixed_initializer [2; 3] 4 1 world0
        = (Raise (ValueError
                    "could not broadcast input array from shape (3,3) into shape (3,4)"),
           w'))
  /\ (exists rows w',
        fixed_initializer [2; 1] 4 1 world0 = (Ok (mkTensor [Some 3; Some 4] (Mat rows)), w')
        /\ rows !! 2 = Some [1; 1; 1; 1]%R).
Proof.
  split; [|split].
  - apply (fixed_initializer_identity_block [2; 3] 3 1 3 world0);
      [reflexivity | repeat constructor; lia | reflexivity].
  - apply (fixed_initializer_identity_block [2; 3] 4 1 3 world0);
      [reflexivity | repeat constructor; lia | lia | lia].
  - apply (fixed_initializer_identity_block [2; 1] 4 1 1 world0);
      [reflexivity | repeat constructor; lia | reflexivity].
Defined.

(** C2 fails as stated: an identity block of one row is broadcast over the
    [n_out] columns, and the call returns a row of ones instead of failing. *)
Lemma fixed_initializer_identity_one_row :
  [1] !! 0 = Some 1 /\ 1 <> 3
  /\ fixed_initializer [1] 3 0 world0
     = (Ok (mkTensor [Some 1; Some 3] (Mat [[1; 1; 1]%R])), world0).
Proof.
  split; [reflexivity|]. split; [lia|].
  transitivity (Ok (mkTensor [Some 1; Some 3] (Mat [[float32 1; float32 1; float32 1]])),
                world0); [reflexivity|].
  by rewrite float32_1.
Qed.
(** ** The shape checks of linear *)

Lemma linear_shapes_loop_offending shapes todo :
  forall total_arg_size n_in_list w,
    Exists offending todo ->
    exists prefix,
      linear_shapes_loop shapes todo total_arg_size n_in_list w
      = (Raise (ValueError (prefix +:+ str_shapes shapes)), w).
Proof.
  induction todo as [|shape rest IH]; intros total acc w Hex.
  - by apply Exists_nil in Hex.
  - cbn [linear_shapes_loop].
    destruct (Nat.eqb_spec (length shape) 2) as [Hlen|Hlen]; cbn [negb].
    + destruct (nth 1 shape None) as [[|k]|] eqn:Hdim.
      * by eexists.
      * apply IH. apply Exists_cons in Hex as [[H|[H|H]]|H]; (done || congruence).
      * by eexists.
    + by eexists.
Qed.

Lemma linear_shapes_loop_ok shapes todo :
  forall total_arg_size n_in_list w,
    Forall (fun shape => length shape = 2 /\ 0 < shape_dim shape) todo ->
    linear_shapes_loop shapes todo total_arg_size n_in_list w
    = (Ok (total_arg_size + sum_list (map shape_dim todo),
           n_in_list ++ map shape_dim todo), w).
Proof.
  induction todo as [|shape rest IH]; intros total acc w Hall.
  - cbn. by rewrite Nat.add_0_r, app_nil_r.
  - apply Forall_cons in Hall as [[Hlen Hdim] Hall].
    assert (exists k, nth 1 shape None = Some (S k)) as [k E].
    { unfold shape_dim in Hdim. destruct (nth 1 shape None) as [[|k]|]; try lia. by exists k. }
    assert (shape_dim shape = S k) as Hk by (unfold shape_dim; by rewrite E).
    cbn [linear_shapes_loop]. rewrite Hlen, E. cbn [Nat.eqb negb].
    rewrite IH by done. cbn [map]. rewrite Hk.
    replace (sum_list (S k :: map shape_dim rest)) with (S k + sum_list (map shape_dim rest))
      by done.
    by rewrite Nat.add_assoc, <- app_assoc.
Qed.

(** *** [assert args] and the wrapping of one tensor *)

(** A list with elements passes [assert args] and is taken as it is. *)
Lemma linear_on_list l output_size bias bias_start scope identity w :
  l <> [] ->
  linear (ArgsList l) output_size bias bias_start scope identity w
  = (sizes <- linear_shapes_loop (map get_shape l) (map get_shape l) 0 [] ;;
     r <- variable_scope (scope_or scope "Linear")
            (linear_body l (snd sizes) output_size bias bias_start identity) ;;
     match r with
     | (res, None) => ret res
     | (res, Some bias_term) => tf_add res bias_term
     end) w.
Proof. intros Hl. destruct l; [done|]. reflexivity. Qed.

(** One tensor passed by itself stops at [assert args], which comes before
    the tensor is wrapped in a list: the world is as before. *)
Lemma linear_on_tensor t output_size bias bias_start scope identity w :
  linear (ArgsTensor t) output_size bias bias_start scope identity w
  = (Raise TypeError, w).
Proof. reflexivity. Qed.

(** C6: when an element of a list [args] is not of rank 2, or its feature
    dimension is unknown or zero, [linear] fails with a [ValueError] whose
    message ends with [str(shapes)], the shapes of all arguments; nothing is
    returned and the world is as before.  One tensor of such a shape passed by
    itself does not get as far as the shape check: [assert args] raises
    [TypeError]. *)
Theorem linear_shape_error (args : py_args) (output_size : nat) (bias : bool)
    (bias_start : R) (scope : option string) (identity : Z) (w : world) :
  Exists offending (map get_shape (as_list args)) ->
  match args with
  | ArgsTensor _ =>
      linear args output_size bias bias_start scope identity w = (Raise TypeError, w)
  | _ =>
      exists prefix,
        linear args output_size bias bias_start scope identity w
        = (Raise (ValueError (prefix +:+ str_shapes (map get_shape (as_list args)))), w)
  end.
Proof.
  intros Hex. destruct args as [|l|t]; [by apply Exists_nil in Hex| |reflexivity].
  cbn [as_list] in *.
  assert (Hl : l <> []) by (intros ->; by apply Exists_nil in Hex).
  rewrite (linear_on_list l) by done. unfold bind.
  destruct (linear_shapes_loop_offending (map get_shape l) _ 0 [] w Hex) as [prefix ->].
  by exists prefix.
Qed.

Lemma linear_shape_error_witness :
  linear (ArgsTensor (mkTensor [Some 2; None] (Mat [[]; []]))) 4 true 0 None (-1) world0
  = (Raise TypeError, world0)
  /\ exists prefix,
       linear (ArgsList [mkTensor [Some 2; Some 3] (Mat [[0; 0; 0]; [0; 0; 0]])%R;
                         mkTensor [Some 2; None] (Mat [[]; []])])
              4 true 0 None (-1) world0
       = (Raise (ValueError (prefix +:+ "[[2, 3], [2, None]]")), world0).
Proof.
  split.
  - apply (linear_shape_error
             (ArgsTensor (mkTensor [Some 2; None] (Mat [[]; []])))
             4 true 0%R None (-1)%Z world0).
    apply Exists_cons_hd. right. left. reflexivity.
  - apply (linear_shape_error
             (ArgsList [mkTensor [Some 2; Some 3] (Mat [[0; 0; 0]; [0; 0; 0]])%R;
                        mkTensor [Some 2; None] (Mat [[]; []])])
             4 true 0%R None (-1)%Z world0).
    apply Exists_cons_tl, Exists_cons_hd. right. left. reflexivity.
Defined.

(** C10: with [args] empty ([None] or an empty list), [linear] fails on its
    [assert], before any shape is read, any sample drawn or any parameter
    registered: the world is as before. *)
Theorem linear_empty_args_assertion (output_size : nat) (bias : bool)
    (bias_start : R) (scope : option string) (identity : Z) (w : world) :
  linear ArgsNone output_size bias bias_start scope identity w = (Raise AssertionError, w)
  /\ linear (ArgsList []) output_size bias bias_start scope identity w
     = (Raise AssertionError, w).
Proof. split; reflexivity. Qed.

(** ** The cells that are not implemented *)

(** C8: whatever the cell, the inputs, the state and the scope, the step of
    [LSTMCell], [complex_RNNCell] and [uRNN] raises [NotImplementedError],
    returns nothing and leaves the world as it was. *)
Theorem stub_cells_not_implemented (self : steph_RNNCell) (inputs state : Tensor)
    (scope : string) (w : world) :
  LSTMCell_call self inputs state scope w = (Raise (NotImplementedError []), w)
  /\ complex_RNNCell_call self inputs state scope w = (Raise (NotImplementedError []), w)
  /\ uRNN_call self inputs state scope w = (Raise (NotImplementedError []), w)
  /\ (cell_class_of self = LSTMCell \/ cell_class_of self = complex_RNNCell
      \/ cell_class_of self = uRNN ->
      cell_call self inputs state w = (Raise (NotImplementedError []), w)).
Proof.
  repeat split. intros [H|[H|H]]; unfold cell_call; rewrite H; reflexivity.
Qed.

(** ** RNN *)

(** C9, as the code has it: for a cell type other than ['tanhRNN'] and
    ['IRNN'], [RNN] raises a [NotImplementedError] that carries no text, builds
    no cell and leaves the world as it was. *)
Theorem RNN_unknown_cell_type (cell_type : string) (x : Tensor)
    (input_size state_size output_size sequence_length : nat) (w : world) :
  cell_type <> "tanhRNN" ->
  cell_type <> "IRNN" ->
  RNN cell_type x input_size state_size output_size sequence_length w
  = (Raise (NotImplementedError []), w).
Proof.
  intros H1 H2. unfold RNN, bind.
  destruct (String.eqb_spec cell_type "tanhRNN"); [done|].
  destruct (String.eqb_spec cell_type "IRNN"); [done|]. reflexivity.
Qed.

Lemma RNN_unknown_cell_type_witness :
  RNN "LSTM" (mkTensor [Some 1; Some 1; Some 1] (Cube [[[0%R]]])) 1 1 1 1 world0
  = (Raise (NotImplementedError []), world0).
Proof.
  apply (RNN_unknown_cell_type "LSTM"); intros H; discriminate H.
Defined.

(** C9 fails as stated: the error raised for the unknown cell type ['LSTM']
    does not indicate that identifier. *)
Lemma RNN_error_omits_identifier :
  exists e,
    RNN "LSTM" (mkTensor [Some 1; Some 1; Some 1] (Cube [[[0%R]]])) 1 1 1 1 world0
    = (Raise e, world0)
    /\ ~ indicates e "LSTM".
Proof.
  exists (NotImplementedError []). split; [reflexivity|].
  intros (text & pre & post & Hin & _). simpl in Hin. by apply elem_of_nil in Hin.
Qed.

(** ** What a call may change in the store of parameters *)

Lemma touches_only_ret {A} p names (a : A) : touches_only p names (ret a).
Proof. by intros w Hw. Qed.

Lemma touches_only_raise {A} p names e : touches_only p names (@raise A e).
Proof. by intros w Hw. Qed.

Lemma touches_only_bind {A B} p names (c : M A) (k : A -> M B) :
  touches_only p names c ->
  (forall a, touches_only p names (k a)) ->
  touches_only p names (bind c k).
Proof.
  intros Hc Hk w Hw. unfold bind. specialize (Hc w Hw).
  destruct (c w) as [[a|e] w1]; simpl in Hc; [|done].
  destruct Hc as [Hp Hv]. specialize (Hk a w1 Hp) as [Hp' Hv'].
  split; [done|]. intros name Hn. by rewrite Hv', Hv.
Qed.

Lemma touches_only_weaken {A} p names names' (c : M A) :
  touches_only p names c -> names ⊆ names' -> touches_only p names' c.
Proof.
  intros Hc Hsub w Hw. destruct (Hc w Hw) as [Hp Hv]. split; [done|].
  intros name Hn. apply Hv. intros Hin. apply Hn, Hsub, Hin.
Qed.

Lemma touches_only_variable_scope {A} p names name (body : M A) :
  touches_only (scope_join p name) names body ->
  touches_only p names (variable_scope name body).
Proof.
  intros Hb w Hw. unfold variable_scope.
  specialize (Hb (set_scope (scope_join (scope_name w) name) w)).
  destruct (body _) as [r w']. simpl in *. rewrite Hw in Hb.
  destruct (Hb eq_refl) as [_ Hv]. by split.
Qed.

Lemma touches_only_get_variable p name shape initial :
  touches_only p [scope_join p name] (get_variable name shape initial).
Proof.
  intros w Hw. unfold get_variable. cbn zeta. rewrite Hw.
  destruct (_ !! _) as [v|], (reuse w); cbn [snd scope_name variables]; try done.
  - destruct shape as [s|]; [|done]. by destruct (shape_compatible s (get_shape v)).
  - split; [done|].
    intros n Hn. apply lookup_insert_ne. intros Heq. apply Hn. subst n. by left.
Qed.

Lemma touches_only_setitem_rows p names matrix a b values :
  touches_only p names (setitem_rows matrix a b values).
Proof.
  intros w Hw. unfold setitem_rows. destruct (nd_shape matrix).
  by destruct (broadcast_to _ _ _).
Qed.

Lemma touches_only_block_values p names i identity n_in n_out :
  touches_only p names
    (if (Z.of_nat i =? identity)%Z then ret (np_identity n_in)
     else scale <- block_scale n_in n_out ;;
          np_random_uniform (- scale) scale n_in n_out).
Proof.
  destruct (Z.of_nat i =? identity)%Z; [apply touches_only_ret|].
  apply touches_only_bind.
  - intros w Hw. unfold block_scale. by destruct (n_in + n_out =? 0)%nat.
  - by intros scale w Hw.
Qed.

Lemma touches_only_fixed_initializer_loop p names n_out identity l :
  forall i matrix rm,
    touches_only p names (fixed_initializer_loop l i n_out identity matrix rm).
Proof.
  induction l as [|n_in rest IH]; intros i matrix rm; [apply touches_only_ret|].
  cbn [fixed_initializer_loop].
  apply touches_only_bind; [apply touches_only_block_values|]. intros values.
  apply touches_only_bind; [apply touches_only_setitem_rows|]. intros m. apply IH.
Qed.

Lemma touches_only_fixed_initializer p names l n_out identity :
  touches_only p names (fixed_initializer l n_out identity).
Proof.
  unfold fixed_initializer, fixed_initializer_array.
  apply touches_only_bind; [|intros; apply touches_only_ret].
  apply touches_only_bind; [by intros w Hw|].
  intros m. apply touches_only_fixed_initializer_loop.
Qed.

Lemma tf_matmul_world a b w : snd (tf_matmul a b w) = w.
Proof.
  unfold tf_matmul. destruct (tval a), (tval b); try done.
  destruct (get_shape b) as [|? [|[?|] [|? ?]]]; try done.
  by destruct (forallb _ _).
Qed.

Lemma tf_concat1_world args : forall w, snd (tf_concat1 args w) = w.
Proof.
  induction args as [|a rest IH]; intros w; [done|].
  destruct rest as [|a' rest].
  - simpl. by destruct (tval a).
  - change (tf_concat1 (a :: a' :: rest))
      with (bind (tf_concat1 (a' :: rest)) (fun r =>
              match tval a, tval r with
              | Mat x, Mat y =>
                  if (length x =? length y)%nat
                  then ret (mkTensor
                         [merge_dim (nth 0 (get_shape a) None) (nth 0 (get_shape r) None);
                          add_dim (nth 1 (get_shape a) None) (nth 1 (get_shape r) None)]
                         (Mat (zip_with app x y)))
                  else raise (OpError "Concat")
              | _, _ => raise (OpError "Concat")
              end)).
    unfold bind. specialize (IH w). destruct (tf_concat1 (a' :: rest) w) as [[r|e] w1].
    + simpl in IH. subst w1. destruct (tval a), (tval r); try done.
      by destruct (length rows =? length rows0)%nat.
    + done.
Qed.

Lemma tf_add_world a b w : snd (tf_add a b w) = w.
Proof.
  unfold tf_add. destruct (tval a), (tval b); try done. by destruct (add_rows _ _).
Qed.

Lemma touches_only_of_world {A} p names (c : M A) :
  (forall w, snd (c w) = w) -> touches_only p names c.
Proof. intros H w Hw. by rewrite H. Qed.

Lemma linear_shapes_loop_world shapes todo :
  forall total n_in_list w, snd (linear_shapes_loop shapes todo total n_in_list w) = w.
Proof.
  induction todo as [|shape rest IH]; intros total acc w; [done|].
  cbn [linear_shapes_loop]. destruct (negb _); [done|].
  destruct (nth 1 shape None) as [[|k]|]; by try apply IH.
Qed.

Lemma touches_only_linear_body p args n_in_list output_size (bias : bool) bias_start
    identity :
  touches_only p
    (scope_join p "Matrix" :: (if bias then [scope_join p "Bias"] else []))
    (linear_body args n_in_list output_size bias bias_start identity).
Proof.
  unfold linear_body.
  apply touches_only_bind; [apply touches_only_fixed_initializer|]. intros initial.
  apply touches_only_bind.
  { eapply touches_only_weaken; [apply touches_only_get_variable|].
    intros n Hn. apply list_elem_of_singleton in Hn as ->. by left. }
  intros matrix. apply touches_only_bind.
  { destruct args as [|a [|a' rest]].
    - apply touches_only_bind; [|intros c]; apply touches_only_of_world; intros w.
      + apply tf_concat1_world.
      + apply tf_matmul_world.
    - apply touches_only_of_world; intros w. apply tf_matmul_world.
    - apply touches_only_bind; [|intros c]; apply touches_only_of_world; intros w.
      + apply tf_concat1_world.
      + apply tf_matmul_world. }
  intros res. destruct bias; cbn [negb]; [|apply touches_only_ret].
  apply touches_only_bind; [|intros; apply touches_only_ret].
  eapply touches_only_weaken; [apply touches_only_get_variable|].
  intros n Hn. apply list_elem_of_singleton in Hn as ->. right. by left.
Qed.

Lemma touches_only_linear p args output_size (bias : bool) bias_start scope identity :
  touches_only p
    (scope_join (scope_join p (scope_or scope "Linear")) "Matrix"
       :: (if bias then [scope_join (scope_join p (scope_or scope "Linear")) "Bias"]
           else []))
    (linear args output_size bias bias_start scope identity).
Proof.
  unfold linear.
  apply touches_only_bind.
  { destruct args as [|[|a l]|t]; (apply touches_only_ret || apply touches_only_raise). }
  intros truth. apply touches_only_bind.
  { destruct truth; [apply touches_only_ret | apply touches_only_raise]. }
  intros _. apply touches_only_bind.
  { apply touches_only_of_world. intros w. apply linear_shapes_loop_world. }
  intros sizes. apply touches_only_bind.
  { apply touches_only_variable_scope, touches_only_linear_body. }
  intros [res [b|]]; [|apply touches_only_ret].
  apply touches_only_of_world. intros w. apply tf_add_world.
Qed.

Lemma bias_name_not_matrix_name q : scope_join q "Bias" <> scope_join q "Matrix".
Proof.
  unfold scope_join. destruct q as [|c q]; [discriminate|].
  intros H. apply (inj (String.app _)) in H. discriminate H.
Qed.

(** *** What [get_variable] and the pure ops return *)

(** A parameter [get_variable] returns is in the store under its name. *)
Lemma get_variable_Ok_inv name shape initial w v w' :
  get_variable name shape initial w = (Ok v, w') ->
  variables w' !! scope_join (scope_name w) name = Some v.
Proof.
  unfold get_variable. cbn zeta.
  destruct (_ !! _) as [v0|] eqn:E, (reuse w); try done.
  - destruct shape as [s|]; [destruct (shape_compatible s (get_shape v0)); [|done]|];
      by intros [= <- <-].
  - intros [= <- <-]. cbn [variables]. apply lookup_insert_eq.
Qed.

(** Out of reuse mode, a name the store does not have yet is registered with
    the initial value. *)
Lemma get_variable_fresh name shape initial w :
  reuse w = false ->
  variables w !! scope_join (scope_name w) name = None ->
  get_variable name shape initial w
  = (Ok initial,
     mkWorld (rng w) (uninit w) (scope_name w) (reuse w)
       (<[scope_join (scope_name w) name := initial]> (variables w))).
Proof. intros Hr Hf. unfold get_variable. cbn zeta. by rewrite Hf, Hr. Qed.

Lemma tf_matmul_pure a b w w' : tf_matmul a b w' = (fst (tf_matmul a b w), w').
Proof.
  unfold tf_matmul. destruct (tval a), (tval b); try done.
  destruct (get_shape b) as [|? [|[?|] [|? ?]]]; try done.
  by destruct (forallb _ _).
Qed.

Lemma tf_concat1_pure args : forall w w', tf_concat1 args w' = (fst (tf_concat1 args w), w').
Proof.
  induction args as [|a rest IH]; intros w w'; [done|].
  destruct rest as [|a' rest].
  - simpl. by destruct (tval a).
  - change (tf_concat1 (a :: a' :: rest))
      with (bind (tf_concat1 (a' :: rest)) (fun r =>
              match tval a, tval r with
              | Mat x, Mat y =>
                  if (length x =? length y)%nat
                  then ret (mkTensor
                         [merge_dim (nth 0 (get_shape a) None) (nth 0 (get_shape r) None);
                          add_dim (nth 1 (get_shape a) None) (nth 1 (get_shape r) None)]
                         (Mat (zip_with app x y)))
                  else raise (OpError "Concat")
              | _, _ => raise (OpError "Concat")
              end)).
    unfold bind. rewrite (IH w w').
    destruct (tf_concat1 (a' :: rest) w) as [[r|e] w1]; cbn [fst]; [|done].
    destruct (tval a), (tval r); try done.
    by destruct (length rows =? length rows0)%nat.
Qed.

Lemma matmul_of_args_pure args matrix w w' :
  matmul_of_args args matrix w' = (fst (matmul_of_args args matrix w), w').
Proof.
  assert (Hc : (c <- tf_concat1 args ;; tf_matmul c matrix) w'
               = (fst ((c <- tf_concat1 args ;; tf_matmul c matrix) w), w')).
  { unfold bind. rewrite (tf_concat1_pure args w w').
    destruct (tf_concat1 args w) as [[c|e] w1]; cbn [fst]; [|done].
    rewrite (tf_matmul_pure c matrix w1 w'). by rewrite (tf_matmul_pure c matrix w1 w1). }
  destruct args as [|a [|a' rest]]; try exact Hc.
  apply tf_matmul_pure.
Qed.

(** *** Inversion of the monad's combinators *)

Lemma bind_Ok_inv {A B} (c : M A) (k : A -> M B) w r w' :
  (x <- c ;; k x) w = (Ok r, w') ->
  exists a w1, c w = (Ok a, w1) /\ k a w1 = (Ok r, w').
Proof.
  unfold bind. destruct (c w) as [[a|e] w1]; [|done]. intros H. by exists a, w1.
Qed.

Lemma variable_scope_Ok_inv {A} name (body : M A) w r w' :
  variable_scope name body w = (Ok r, w') ->
  exists w1, body (set_scope (scope_join (scope_name w) name) w) = (Ok r, w1) /\
             w' = leave_scope w w1.
Proof.
  unfold variable_scope. destruct (body _) as [r1 w1]. intros [= -> <-]. by exists w1.
Qed.

Lemma pair_of_fst_snd {A} (c : outcome A * world) r : fst c = Ok r -> c = (Ok r, snd c).
Proof. destruct c as [o w]. by intros [= ->]. Qed.

(** C7: called with [bias = False], [linear] leaves the scope as it found it,
    leaves the entry of the bias variable in the parameter store as it was
    (absent, if it was absent), changes no entry of the store other than that
    of the weight matrix, and what it returns is the product of the
    argument(s) with the registered matrix, with nothing added. *)
Theorem linear_without_bias_registers_matrix_only (args : py_args) (output_size : nat)
    (bias_start : R) (scope : option string) (identity : Z) (w : world) :
  let out := linear args output_size false bias_start scope identity w in
  scope_name (snd out) = scope_name w /\
  variables (snd out) !! bias_name w scope = variables w !! bias_name w scope /\
  (forall name, name <> matrix_name w scope ->
     variables (snd out) !! name = variables w !! name) /\
  (forall res, fst out = Ok res ->
     exists matrix,
       variables (snd out) !! matrix_name w scope = Some matrix /\
       fst (matmul_of_args (as_list args) matrix (snd out)) = Ok res).
Proof.
  intros out.
  destruct (touches_only_linear (scope_name w) args output_size false bias_start scope
              identity w eq_refl) as [Hs Hv]. fold out in Hs, Hv.
  assert (Hframe : forall name, name <> matrix_name w scope ->
            variables (snd out) !! name = variables w !! name).
  { intros name Hn. apply Hv. intros Hin. apply list_elem_of_singleton in Hin. done. }
  split; [done|]. split; [apply Hframe, bias_name_not_matrix_name|]. split; [done|].
  intros res Hres. apply pair_of_fst_snd in Hres. revert Hres.
  generalize (snd out) as w'. subst out. clear. intros w' Hres.
  unfold linear in Hres.
  apply bind_Ok_inv in Hres as (b & w0 & Htruthy & Hres).
  assert (w0 = w) as ->.
  { destruct args as [|[|a l]|t]; by inversion Htruthy. }
  apply bind_Ok_inv in Hres as (u & w1 & Hassert & Hres).
  assert (w1 = w) as ->.
  { unfold py_assert in Hassert. destruct b; [|done]. by inversion Hassert. }
  apply bind_Ok_inv in Hres as (sizes & w2 & Hsizes & Hres).
  assert (w2 = w) as ->.
  { pose proof (linear_shapes_loop_world (map get_shape (as_list args))
      (map get_shape (as_list args)) 0 [] w) as H. by rewrite Hsizes in H. }
  apply bind_Ok_inv in Hres as (r & w3 & Hbody & Hres).
  apply variable_scope_Ok_inv in Hbody as (w4 & Hbody & ->).
  unfold linear_body in Hbody.
  apply bind_Ok_inv in Hbody as (initial & w5 & Hinit & Hbody).
  apply bind_Ok_inv in Hbody as (matrix & w6 & Hget & Hbody).
  apply bind_Ok_inv in Hbody as (res0 & w7 & Hprod & Hbody).
  cbn [negb] in Hbody. injection Hbody as <- <-.
  injection Hres as <- <-.
  fold (matmul_of_args (as_list args) matrix) in Hprod.
  assert (w7 = w6) as ->.
  { rewrite (matmul_of_args_pure _ _ w6 w6) in Hprod. by inversion Hprod. }
  destruct (touches_only_fixed_initializer
              (scope_join (scope_name w) (scope_or scope "Linear")) []
              (snd sizes) output_size identity
              (set_scope (scope_join (scope_name w) (scope_or scope "Linear")) w) eq_refl)
    as [Hs5 _].
  rewrite Hinit in Hs5. cbn [snd] in Hs5.
  pose proof (get_variable_Ok_inv _ _ _ _ _ _ Hget) as Hlook.
  exists matrix. split.
  - cbn [leave_scope variables]. by rewrite Hs5 in Hlook.
  - rewrite (matmul_of_args_pure _ _ w6 _). by rewrite Hprod.
Qed.

(** *** Concatenation, product and sum on well-shaped operands *)

Lemma map_nth_seq {A} (d : A) (l : list A) :
  map (fun b => nth b l d) (seq 0 (length l)) = l.
Proof.
  apply list_eq. intros i. rewrite list_lookup_fmap.
  destruct (decide (i < length l)) as [Hi|Hi].
  - rewrite lookup_seq_lt by done. cbn. rewrite nth_lookup.
    destruct (lookup_lt_is_Some_2 l i Hi) as [x ->]. done.
  - rewrite lookup_seq_ge by lia. cbn. symmetry. apply lookup_ge_None. lia.
Qed.

Lemma zip_with_app_seq {A} (x : list (list A)) (g : nat -> list A) :
  zip_with app x (map g (seq 0 (length x)))
  = map (fun b => nth b x [] ++ g b) (seq 0 (length x)).
Proof.
  apply list_eq. intros i. rewrite lookup_zip_with, !list_lookup_fmap.
  destruct (decide (i < length x)) as [Hi|Hi].
  - rewrite lookup_seq_lt by done. cbn. rewrite nth_lookup.
    destruct (lookup_lt_is_Some_2 x i Hi) as [r ->]. done.
  - rewrite lookup_seq_ge by lia. cbn.
    replace (x !! i) with (@None (list A)); [done|].
    symmetry. apply lookup_ge_None. lia.
Qed.

Lemma concat_features_single B a rows :
  tval a = Mat rows -> length rows = B -> concat_features B [a] = rows.
Proof.
  intros Ha <-. unfold concat_features.
  rewrite <- (map_nth_seq [] rows) at 2. apply map_ext. intros b.
  cbn [map concat]. unfold rows_of. rewrite Ha. apply app_nil_r.
Qed.

Lemma concat_features_cons B a rows rest :
  tval a = Mat rows -> length rows = B ->
  zip_with app rows (concat_features B rest) = concat_features B (a :: rest).
Proof.
  intros Ha <-. unfold concat_features. rewrite zip_with_app_seq.
  apply map_ext. intros b. cbn [map concat]. unfold rows_of at 2. by rewrite Ha.
Qed.

Lemma concat_features_length B args : length (concat_features B args) = B.
Proof. unfold concat_features. by rewrite length_map, length_seq. Qed.

Lemma valid_arg_row B a b :
  valid_arg B a -> b < B -> length (nth b (rows_of a) []) = feature_dim a.
Proof.
  intros (d & k & rows & Hshape & Hval & Hlen & Hrows) Hb.
  unfold rows_of, feature_dim, shape_dim. rewrite Hval, Hshape. cbn [nth].
  rewrite nth_lookup. destruct (lookup_lt_is_Some_2 rows b) as [r Hr]; [lia|].
  rewrite Hr. cbn. by apply (Forall_lookup_1 _ _ _ _ Hrows Hr).
Qed.

Lemma concat_features_width B args :
  Forall (valid_arg B) args ->
  Forall (fun r => length r = sum_list (map feature_dim args)) (concat_features B args).
Proof.
  intros Hargs. unfold concat_features. apply Forall_map, Forall_forall.
  intros b Hb. apply list_elem_of_In, in_seq in Hb. cbn.
  induction Hargs as [|a rest Ha _ IH]; [done|].
  cbn [map concat sum_list]. rewrite length_app, IH.
  by rewrite (valid_arg_row B a b) by (done || lia).
Qed.

Lemma tf_concat1_valid B args w :
  args <> [] -> Forall (valid_arg B) args ->
  exists c, tf_concat1 args w = (Ok c, w) /\
            tval c = Mat (concat_features B args) /\
            nth 1 (get_shape c) None = Some (sum_list (map feature_dim args)).
Proof.
  intros Hne Hargs. induction Hargs as [|a rest Ha Hrest IH]; [done|]. clear Hne.
  pose proof Ha as (d & k & rows & Hshape & Hval & Hlen & Hrows).
  destruct rest as [|a' rest].
  - exists a. cbn [tf_concat1]. rewrite Hval. split; [done|]. split.
    + by rewrite (concat_features_single B a rows).
    + rewrite Hshape. cbn. unfold feature_dim, shape_dim. rewrite Hshape. cbn.
      by rewrite Nat.add_0_r.
  - destruct IH as (r & Hr & Hrv & Hrs); [done|].
    change (tf_concat1 (a :: a' :: rest))
      with (bind (tf_concat1 (a' :: rest)) (fun r =>
              match tval a, tval r with
              | Mat x, Mat y =>
                  if (length x =? length y)%nat
                  then ret (mkTensor
                         [merge_dim (nth 0 (get_shape a) None) (nth 0 (get_shape r) None);
                          add_dim (nth 1 (get_shape a) None) (nth 1 (get_shape r) None)]
                         (Mat (zip_with app x y)))
                  else raise (OpError "Concat")
              | _, _ => raise (OpError "Concat")
              end)).
    unfold bind. rewrite Hr, Hval, Hrv, concat_features_length, Hlen, Nat.eqb_refl.
    eexists. split; [done|]. cbn [tval get_shape nth]. split.
    + by rewrite (concat_features_cons B a rows).
    + assert (Hdim : feature_dim a = S k).
      { unfold feature_dim, shape_dim. by rewrite Hshape. }
      rewrite Hrs, Hshape. cbn [nth add_dim].
      change (map feature_dim (a :: a' :: rest))
        with (feature_dim a :: map feature_dim (a' :: rest)).
      by rewrite Hdim.
Qed.

Lemma tf_matmul_ok c X total n W w :
  tval c = Mat X -> Forall (fun r => length r = total) X -> length W = total ->
  tf_matmul c (mkTensor [Some total; Some n] (Mat W)) w
  = (Ok (mkTensor [nth 0 (get_shape c) None; Some n] (Mat (matmul_rows X W n))), w).
Proof.
  intros Hc HX HW. unfold tf_matmul. rewrite Hc. cbn [tval get_shape].
  replace (forallb _ X) with true; [done|].
  symmetry. apply forallb_forall. intros r Hr. apply Nat.eqb_eq. rewrite HW.
  rewrite Forall_forall in HX. by apply HX, list_elem_of_In.
Qed.

Lemma matmul_rows_width X W n : Forall (fun r => length r = n) (matmul_rows X W n).
Proof.
  unfold matmul_rows. apply Forall_map, Forall_forall. intros r _. cbn.
  by rewrite length_map, length_seq.
Qed.

Lemma zip_with_plus_repeat c r :
  zip_with Rplus r (repeat c (length r)) = map (fun x => (x + c)%R) r.
Proof. induction r as [|x r IH]; [done|]. cbn. by rewrite IH. Qed.

Lemma add_rows_constant c n rows :
  Forall (fun r => length r = n) rows -> add_rows rows (repeat c n) = Some (add_bias c rows).
Proof.
  induction 1 as [|r rest Hr _ IH]; [done|].
  cbn [add_rows]. rewrite IH. unfold add_row.
  rewrite repeat_length, Hr, Nat.eqb_refl. rewrite <- Hr at 1.
  by rewrite zip_with_plus_repeat.
Qed.

Lemma tf_add_constant res rows c n w :
  tval res = Mat rows -> Forall (fun r => length r = n) rows ->
  tf_add res (constant_initializer c n) w
  = (Ok (mkTensor (get_shape res) (Mat (add_bias c rows))), w).
Proof.
  intros Hres Hrows. unfold tf_add. rewrite Hres. cbn [constant_initializer tval].
  by rewrite (add_rows_constant c n rows).
Qed.

(** *** One call of [linear] on well-shaped arguments and fresh names *)

Lemma bind_Ok {A B} (c : M A) (k : A -> M B) w a w1 :
  c w = (Ok a, w1) -> (x <- c ;; k x) w = k a w1.
Proof. unfold bind. by intros ->. Qed.

Lemma bind_eq {A B} (c : M A) (k : A -> M B) w :
  (x <- c ;; k x) w
  = match c w with
    | (Ok a, w') => k a w'
    | (Raise e, w') => (Raise e, w')
    end.
Proof. reflexivity. Qed.

Lemma variable_scope_Ok {A} name (body : M A) w r w1 :
  body (set_scope (scope_join (scope_name w) name) w) = (r, w1) ->
  variable_scope name body w = (r, leave_scope w w1).
Proof. unfold variable_scope. by intros ->. Qed.

Lemma valid_arg_feature_dim B a : valid_arg B a -> 0 < feature_dim a.
Proof.
  intros (d & k & rows & Hshape & _). unfold feature_dim, shape_dim.
  rewrite Hshape. cbn. lia.
Qed.

Lemma valid_arg_shape B a :
  valid_arg B a -> length (get_shape a) = 2 /\ 0 < shape_dim (get_shape a).
Proof.
  intros Ha. split; [|by apply (valid_arg_feature_dim B)].
  destruct Ha as (d & k & rows & -> & _). done.
Qed.

Lemma matmul_of_args_valid B args total n W w :
  args <> [] -> Forall (valid_arg B) args ->
  total = sum_list (map feature_dim args) -> length W = total ->
  exists d,
    matmul_of_args args (mkTensor [Some total; Some n] (Mat W)) w
    = (Ok (mkTensor [d; Some n] (Mat (matmul_rows (concat_features B args) W n))), w).
Proof.
  intros Hne Hargs -> HW.
  destruct (tf_concat1_valid B args w Hne Hargs) as (c & Hc & Hcv & Hcs).
  pose proof (concat_features_width B args Hargs) as Hwidth.
  assert (Hmany : exists d,
            (c <- tf_concat1 args ;; tf_matmul c (mkTensor
               [Some (sum_list (map feature_dim args)); Some n] (Mat W))) w
            = (Ok (mkTensor [d; Some n]
                     (Mat (matmul_rows (concat_features B args) W n))), w)).
  { eexists. rewrite (bind_Ok _ _ _ _ _ Hc). by apply tf_matmul_ok. }
  destruct args as [|a [|a' rest]]; [done| |exact Hmany].
  cbn [matmul_of_args]. apply Forall_cons in Hargs as [Ha _].
  pose proof Ha as (d & k & rows & Hshape & Hval & Hlen & Hrows).
  eexists. rewrite (tf_matmul_ok a (concat_features B [a])); [done| |done|done].
  by rewrite (concat_features_single B a rows).
Qed.

Lemma linear_fresh (l : list Tensor) (B n : nat) (bias : bool) (c : R)
    (scope : option string) (identity : Z) (w : world) :
  l <> [] ->
  Forall (valid_arg B) l ->
  square_identity (map feature_dim l) n identity ->
  reuse w = false ->
  variables w !! matrix_name w scope = None ->
  (bias = true -> variables w !! bias_name w scope = None) ->
  let dims := map feature_dim l in
  let W := map (map float32) (written_rows dims 0 n identity (rng w)) in
  let product := matmul_rows (concat_features B l) W n in
  let registered :=
    <[matrix_name w scope := mkTensor [Some (sum_list dims); Some n] (Mat W)]>
      (variables w) in
  exists d,
    linear (ArgsList l) n bias c scope identity w
    = (Ok (mkTensor [d; Some n] (Mat (if bias then add_bias c product else product))),
       mkWorld (rng_after dims 0 n identity (rng w)) (uninit w) (scope_name w) (reuse w)
         (if bias then <[bias_name w scope := constant_initializer c n]> registered
          else registered)).
Proof.
  intros Hne Hargs Hsq Hreuse Hfresh Hbias dims W product registered.
  fold dims in Hsq.
  set (q := scope_join (scope_name w) (scope_or scope "Linear")).
  assert (Hshapes : Forall (fun shape => length shape = 2 /\ 0 < shape_dim shape)
                      (map get_shape l)).
  { apply Forall_map. eapply Forall_impl; [exact Hargs|]. intros a. apply valid_arg_shape. }
  assert (Hnz : Forall (fun n_in => n_in + n <> 0) dims).
  { apply Forall_map. eapply Forall_impl; [exact Hargs|]. intros a Ha.
    pose proof (valid_arg_feature_dim B a Ha). cbn. lia. }
  assert (Hdims : map shape_dim (map get_shape l) = dims).
  { by rewrite map_map. }
  assert (HW : length W = sum_list dims).
  { unfold W. by rewrite length_map, written_rows_length. }
  destruct (matmul_of_args_valid B l (sum_list dims) n W
              (mkWorld (rng_after dims 0 n identity (rng w)) (uninit w) q (reuse w)
                 (<[scope_join q "Matrix" :=
                      mkTensor [Some (sum_list dims); Some n] (Mat W)]> (variables w)))
              Hne Hargs eq_refl HW) as [d Hprod].
  exists d. rewrite (linear_on_list l) by done.
  rewrite (bind_Ok _ _ _ _ _ (linear_shapes_loop_ok _ _ 0 [] w Hshapes)).
  cbn [snd app]. rewrite Hdims.
  set (Wt := mkTensor [Some (sum_list dims); Some n] (Mat W)) in *.
  assert (Hbody : linear_body l dims n bias c identity (set_scope q w)
            = (Ok (mkTensor [d; Some n] (Mat product),
                   if bias then Some (constant_initializer c n) else None),
               mkWorld (rng_after dims 0 n identity (rng w)) (uninit w) q (reuse w)
                 (if bias then <[bias_name w scope := constant_initializer c n]> registered
                  else registered))).
  { unfold linear_body.
    rewrite (bind_Ok _ _ _ _ _ (fixed_initializer_ok dims n identity _ Hnz Hsq)).
    cbn [set_scope rng]. fold W Wt.
    assert (Hget : get_variable "Matrix" None Wt
                     (set_rng (rng_after dims 0 n identity (rng w))
                        (mkWorld (rng w) (uninit w) q (reuse w) (variables w)))
                   = (Ok Wt, mkWorld (rng_after dims 0 n identity (rng w)) (uninit w) q
                               (reuse w) registered)).
    { by apply get_variable_fresh. }
    rewrite (bind_Ok _ _ _ _ _ Hget).
    fold (matmul_of_args l Wt). rewrite (bind_Ok _ _ _ _ _ Hprod).
    destruct bias; cbn [negb]; [|done].
    rewrite bind_eq, get_variable_fresh; [done|done|].
    cbn [scope_name variables].
    change (scope_join q "Bias") with (bias_name w scope).
    unfold registered. rewrite lookup_insert_ne, (Hbias eq_refl); [done|].
    intros H. symmetry in H. by apply bias_name_not_matrix_name in H. }
  rewrite (bind_Ok _ _ _ _ _ (variable_scope_Ok _ _ _ _ _ Hbody)).
  cbn [leave_scope rng uninit variables scope_name].
  destruct bias; [|done].
  by rewrite (tf_add_constant _ product c n) by (done || apply matmul_rows_width).
Qed.

(** C3: on a list of rank-2 arguments of [B] rows with known nonzero feature
    dimensions, with a square identity block if one is asked for, out of reuse
    mode and with parameter names not yet in the store, [linear] returns a
    tensor with [output_size] columns and registers as [Matrix] the value
    [fixed_initializer] builds from the feature dimensions taken in the order
    of [args]; the result is [args[0] @ matrix] for a list of one argument and
    [concat(1, args) @ matrix] for several; with [bias] the registered [Bias]
    is the constant [bias_start] and the result is that product plus
    [bias_start] in every entry, and without [bias] it is the product alone.
    One such tensor passed by itself, not in a list, is not multiplied with
    anything: [assert args] raises [TypeError] and nothing is registered. *)
Theorem linear_is_matmul_plus_bias (args : py_args) (B output_size : nat) (bias : bool)
    (bias_start : R) (scope : option string) (identity : Z) (w : world) :
  as_list args <> [] ->
  Forall (valid_arg B) (as_list args) ->
  square_identity (map feature_dim (as_list args)) output_size identity ->
  reuse w = false ->
  variables w !! matrix_name w scope = None ->
  (bias = true -> variables w !! bias_name w scope = None) ->
  match args with
  | ArgsTensor _ =>
      linear args output_size bias bias_start scope identity w = (Raise TypeError, w)
  | _ =>
      exists res matrix w',
        linear args output_size bias bias_start scope identity w = (Ok res, w') /\
        fst (fixed_initializer (map feature_dim (as_list args)) output_size identity w)
          = Ok matrix /\
        variables w' !! matrix_name w scope = Some matrix /\
        (bias = true ->
           variables w' !! bias_name w scope
           = Some (constant_initializer bias_start output_size)) /\
        nth 1 (get_shape res) None = Some output_size /\
        let x := match as_list args with
                 | [a] => rows_of a
                 | l => concat_features B l
                 end in
        let product := matmul_rows x (rows_of matrix) output_size in
        tval res = Mat (if bias then add_bias bias_start product else product)
  end.
Proof.
  intros Hne Hargs Hsq Hreuse Hfresh Hbias.
  destruct args as [|l|t]; [done| |reflexivity]. cbn [as_list] in *.
  destruct (linear_fresh l B output_size bias bias_start scope identity w
              Hne Hargs Hsq Hreuse Hfresh Hbias) as [d Hrun].
  assert (Hnz : Forall (fun n_in => n_in + output_size <> 0) (map feature_dim l)).
  { apply Forall_map. eapply Forall_impl; [exact Hargs|]. intros a Ha.
    pose proof (valid_arg_feature_dim B a Ha). cbn. lia. }
  eexists _, _, _. split; [exact Hrun|]. split.
  { by rewrite (fixed_initializer_ok _ _ _ w Hnz Hsq). }
  cbn [variables get_shape tval nth rows_of].
  split; [|split; [|split; [done|]]].
  - destruct bias; [|apply lookup_insert_eq].
    rewrite lookup_insert_ne; [apply lookup_insert_eq|]. apply bias_name_not_matrix_name.
  - intros ->. apply lookup_insert_eq.
  - cbn zeta. clear Hrun. destruct l as [|a [|a' rest]]; try done.
    apply Forall_cons in Hargs as [(b & k & rows & _ & Hval & Hlen & _) _].
    rewrite (concat_features_single B a rows Hval Hlen). unfold rows_of. by rewrite Hval.
Qed.

Lemma linear_is_matmul_plus_bias_witness :
  linear (ArgsTensor (mkTensor [Some 1; Some 3] (Mat [[1%R; 2%R; 3%R]])))
         2 true 1 None (-1) world0 = (Raise TypeError, world0)
  /\ exists res matrix w',
       linear (ArgsList [mkTensor [Some 1; Some 3] (Mat [[1%R; 2%R; 3%R]])])
              2 true 1 None (-1) world0 = (Ok res, w') /\
       fst (fixed_initializer [3] 2 (-1) world0) = Ok matrix /\
       variables w' !! "Linear/Matrix" = Some matrix /\
       (true = true ->
          variables w' !! "Linear/Bias" = Some (constant_initializer 1 2)) /\
       nth 1 (get_shape res) None = Some 2 /\
       tval res = Mat (add_bias 1 (matmul_rows [[1%R; 2%R; 3%R]] (rows_of matrix) 2)).
Proof.
  assert (Hvalid : valid_arg 1 (mkTensor [Some 1; Some 3] (Mat [[1%R; 2%R; 3%R]]))).
  { exists (Some 1), 2, [[1%R; 2%R; 3%R]]. repeat constructor. }
  split.
  - apply (linear_is_matmul_plus_bias
             (ArgsTensor (mkTensor [Some 1; Some 3] (Mat [[1%R; 2%R; 3%R]])))
             1 2 true 1%R None (-1)%Z world0); try done.
    + by repeat constructor.
    + intros k n_in _ Hk. lia.
  - apply (linear_is_matmul_plus_bias
             (ArgsList [mkTensor [Some 1; Some 3] (Mat [[1%R; 2%R; 3%R]])])
             1 2 true 1%R None (-1)%Z world0); try done.
    + by repeat constructor.
    + intros k n_in _ Hk. lia.
Defined.

(** *** Products with zero rows and with the identity block *)

Lemma tanh_0 : tanh 0 = 0%R.
Proof. unfold tanh. rewrite sinh_0. unfold Rdiv. ring. Qed.

Lemma tanh32_0 : tanh32 0 = 0%R.
Proof. unfold tanh32. by rewrite tanh_0, float32_0. Qed.

Lemma dot_zero_l m c : dot (repeat 0%R m) c = 0%R.
Proof.
  unfold dot. revert c. induction m as [|m IH]; intros [|y c]; try done.
  cbn. rewrite IH. ring.
Qed.

Lemma dot_app x1 x2 y1 y2 :
  length x1 = length y1 -> dot (x1 ++ x2) (y1 ++ y2) = (dot x1 y1 + dot x2 y2)%R.
Proof.
  unfold dot. revert y1. induction x1 as [|a x1 IH]; intros [|b y1] Hlen; try done.
  - cbn. ring.
  - cbn. rewrite IH by (cbn in Hlen; lia). ring.
Qed.

Lemma matmul_rows_zeros B m W n : matmul_rows (zeros B m) W n = zeros B n.
Proof.
  unfold matmul_rows, zeros. rewrite map_repeat. f_equal.
  rewrite <- (map_const_seq 0%R 0 n). apply map_ext. intros j. apply dot_zero_l.
Qed.

Lemma map_zeros f B n : f 0%R = 0%R -> map (map f) (zeros B n) = zeros B n.
Proof. intros Hf. unfold zeros. by rewrite !map_repeat, Hf. Qed.

Lemma add_bias_0 rows : add_bias 0 rows = rows.
Proof.
  unfold add_bias. rewrite <- (map_id rows) at 2. apply map_ext. intros r.
  rewrite <- (map_id r) at 2. apply map_ext. intros x. ring.
Qed.

Lemma column_app j U V : column j (U ++ V) = column j U ++ column j V.
Proof. apply map_app. Qed.

Lemma column_length j U : length (column j U) = length U.
Proof. apply length_map. Qed.

Lemma column_tabulate r c f j :
  j < c -> column j (tabulate r c f) = map (fun i => f i j) (seq 0 r).
Proof.
  intros Hj. unfold column, tabulate. rewrite map_map. apply map_ext. intros i.
  rewrite (nth_indep _ 0%R (f i 0)) by (by rewrite length_map, length_seq).
  rewrite (map_nth (fun j => f i j) (seq 0 c) 0 j). by rewrite seq_nth.
Qed.

(** The product of a row with column [j] of the identity picks entry [j]. *)
Lemma dot_indicator j s :
  forall a,
    dot s (map (fun i => if (i =? j)%nat then 1%R else 0%R) (seq a (length s)))
    = if (a <=? j)%nat then nth (j - a) s 0%R else 0%R.
Proof.
  unfold dot. induction s as [|x s IH]; intros a.
  - cbn. destruct (a <=? j)%nat; [|done]. by destruct (j - a).
  - cbn [length seq map zip_with fold_right]. rewrite IH.
    destruct (Nat.eqb_spec a j) as [->|Hne].
    + rewrite Nat.leb_refl, Nat.sub_diag.
      replace (S j <=? j)%nat with false by (symmetry; apply Nat.leb_gt; lia).
      cbn. ring.
    + destruct (Nat.leb_spec a j) as [Hle|Hgt].
      * replace (S a <=? j)%nat with true by (symmetry; apply Nat.leb_le; lia).
        replace (j - a) with (S (j - S a)) by lia. cbn. ring.
      * replace (S a <=? j)%nat with false by (symmetry; apply Nat.leb_gt; lia). ring.
Qed.

Lemma row_times_identity_block k n U s :
  length U = k -> length s = n ->
  map (fun j => dot (repeat 0%R k ++ s) (column j (U ++ nd_rows (np_identity n))))
      (seq 0 n)
  = s.
Proof.
  intros HU Hs.
  transitivity (map (fun j => nth j s 0%R) (seq 0 n)); [|subst n; apply map_nth_seq].
  apply map_seq_ext. intros j Hj. rewrite column_app.
  rewrite dot_app by (by rewrite repeat_length, column_length).
  rewrite dot_zero_l, Rplus_0_l. unfold np_identity. cbn [nd_rows].
  rewrite column_tabulate by lia. rewrite <- Hs at 1.
  rewrite (dot_indicator j s 0). cbn. by rewrite Nat.sub_0_r.
Qed.

Lemma matmul_rows_identity_block k n U rows :
  length U = k -> Forall (fun r => length r = n) rows ->
  matmul_rows (map (fun r => repeat 0%R k ++ r) rows) (U ++ nd_rows (np_identity n)) n
  = rows.
Proof.
  intros HU Hrows. unfold matmul_rows. rewrite map_map.
  transitivity (map (fun r : list R => r) rows); [|apply map_id].
  apply map_ext_in. intros r Hr.
  rewrite Forall_forall in Hrows. apply row_times_identity_block; [done|].
  by apply Hrows, list_elem_of_In.
Qed.

Lemma nth_repeat_lt {A} (x d : A) n b : b < n -> nth b (repeat x n) d = x.
Proof.
  intros Hb. rewrite (nth_indep _ d x) by (by rewrite repeat_length).
  apply nth_repeat.
Qed.

Lemma concat_features_zero_inputs B inputs state k rows :
  rows_of inputs = zeros B k -> tval state = Mat rows -> length rows = B ->
  concat_features B [inputs; state] = map (fun r => repeat 0%R k ++ r) rows.
Proof.
  intros Hin Hst Hlen. unfold concat_features.
  transitivity (map (fun r => repeat 0%R k ++ r)
                  (map (fun b => nth b rows []) (seq 0 B)));
    [|subst B; by rewrite map_nth_seq].
  rewrite map_map. apply map_seq_ext. intros b Hb. cbn [map concat]. rewrite Hin, app_nil_r.
  unfold zeros, rows_of. rewrite Hst. by rewrite nth_repeat_lt by lia.
Qed.

Lemma concat_features_zeros B inputs state k1 k2 :
  rows_of inputs = zeros B k1 -> rows_of state = zeros B k2 ->
  concat_features B [inputs; state] = zeros B (k1 + k2).
Proof.
  intros Hin Hst. unfold concat_features, zeros.
  rewrite <- (map_const_seq (repeat 0%R (k1 + k2)) 0 B).
  apply map_seq_ext. intros b Hb. cbn [map concat]. rewrite Hin, Hst, app_nil_r.
  unfold zeros. rewrite !nth_repeat_lt by lia. by rewrite repeat_app.
Qed.

(** *** The names of a cell's parameters *)

Lemma string_app_cons x (a b : string) : String x a +:+ b = String x (a +:+ b).
Proof. reflexivity. Qed.

Lemma string_app_assoc (a b c : string) : (a +:+ b) +:+ c = a +:+ (b +:+ c).
Proof. induction a as [|x a IH]; [done|]. by rewrite !string_app_cons, IH. Qed.

Lemma scope_join_assoc q a x :
  a <> EmptyString ->
  scope_join (scope_join q a) x = scope_join q (a +:+ "/" +:+ x).
Proof.
  intros Ha. destruct q as [|ch q].
  - cbn [scope_join]. by destruct a.
  - cbn [scope_join]. rewrite string_app_cons at 1. cbn [scope_join].
    by rewrite <- string_app_cons, !string_app_assoc.
Qed.

Lemma scope_join_inj q x y : scope_join q x = scope_join q y -> x = y.
Proof.
  unfold scope_join. destruct q as [|ch q]; [done|].
  intros H. apply (inj (String.app _)) in H. by apply (inj (String.app _)) in H.
Qed.

Lemma linear_names_differ q a b x y :
  a <> EmptyString -> b <> EmptyString ->
  a +:+ "/" +:+ x <> b +:+ "/" +:+ y ->
  scope_join (scope_join q a) x <> scope_join (scope_join q b) y.
Proof.
  intros Ha Hb Hne H. rewrite (scope_join_assoc q a x Ha) in H.
  rewrite (scope_join_assoc q b y Hb) in H. by apply scope_join_inj in H.
Qed.

(** *** One step of a cell on fresh parameters *)

(** The step the two cells share: the transition is computed and its
    parameters are registered; the output projection is given [new_state] by
    itself, and the [assert] of [linear] stops it and the step. *)
Lemma cell_step_fresh f identity self inputs state scope B w :
  valid_arg B inputs -> valid_arg B state ->
  square_identity [feature_dim inputs; feature_dim state] (_state_size self) identity ->
  reuse w = false ->
  fresh w (cell_parameters w scope) ->
  let W := map (map float32)
             (written_rows [feature_dim inputs; feature_dim state] 0 (_state_size self)
                identity (rng w)) in
  exists t w1,
    linear (ArgsList [inputs; state]) (_state_size self) true 0
      (Some "Linear/Transition") identity (in_scope w scope) = (Ok t, w1) /\
    tval t = Mat (matmul_rows (concat_features B [inputs; state]) W (_state_size self)) /\
    linear (ArgsTensor (tensor_map f t)) (_output_size self) true 0
      (Some "Linear/Output") (-1) w1 = (Raise TypeError, w1) /\
    cell_step f identity self inputs state scope w
    = (Raise TypeError, leave_scope w w1) /\
    variables w1
    = <[bias_name (in_scope w scope) (Some "Linear/Transition")
          := constant_initializer 0 (_state_size self)]>
        (<[matrix_name (in_scope w scope) (Some "Linear/Transition")
             := mkTensor [Some (feature_dim inputs + feature_dim state);
                          Some (_state_size self)] (Mat W)]>
           (variables w)) /\
    variables w1 !! matrix_name (in_scope w scope) (Some "Linear/Output") = None /\
    variables w1 !! bias_name (in_scope w scope) (Some "Linear/Output") = None.
Proof.
  intros Hin Hst Hsq Hreuse Hfresh W.
  set (ws := in_scope w scope).
  apply Forall_cons in Hfresh as [Hf1 Hfresh]. apply Forall_cons in Hfresh as [Hf2 Hfresh].
  apply Forall_cons in Hfresh as [Hf3 Hfresh]. apply Forall_cons in Hfresh as [Hf4 _].
  fold ws in Hf1, Hf2, Hf3, Hf4.
  destruct (linear_fresh [inputs; state] B (_state_size self) true 0
              (Some "Linear/Transition") identity ws)
    as [d1 Hrun1]; [done|by repeat constructor|done|done|done|done|].
  cbn zeta in Hrun1. cbn [map] in Hrun1.
  change (rng ws) with (rng w) in Hrun1. fold W in Hrun1.
  rewrite add_bias_0 in Hrun1.
  replace (sum_list [feature_dim inputs; feature_dim state])
    with (feature_dim inputs + feature_dim state) in Hrun1 by (cbn; lia).
  match type of Hrun1 with _ = (Ok ?t0, ?w0) => set (t := t0) in *; set (w1 := w0) in * end.
  exists t, w1. split; [done|]. split; [done|].
  split; [apply linear_on_tensor|]. split.
  { unfold cell_step. apply variable_scope_Ok. fold (in_scope w scope). fold ws.
    rewrite (bind_Ok _ _ _ _ _ Hrun1). cbn zeta. by rewrite bind_eq, linear_on_tensor. }
  split; [done|].
  unfold w1. cbn [variables]. split.
  - rewrite !lookup_insert_ne; [done| |]; by apply linear_names_differ.
  - rewrite !lookup_insert_ne; [done| |]; by apply linear_names_differ.
Qed.

(** C5: on well-shaped inputs and state, out of reuse mode and with
    parameter names not yet in the store, the step of [tanhRNNCell] computes
    [new_state = tanh(linear([inputs, state], state_size, bias=True))]: the
    transition matrix it registers is what [fixed_initializer] builds without
    an identity block, and when inputs and state are all zero so is
    [new_state].  It returns neither [new_state] nor an output:
    [linear(new_state, output_size, bias=True)] is given the tensor by itself,
    [assert args] raises [TypeError], and with that exception the step ends,
    the parameters of the output projection not registered. *)
Theorem tanhRNNCell_step (self : steph_RNNCell) (inputs state : Tensor)
    (scope : string) (B : nat) (w : world) :
  valid_arg B inputs -> valid_arg B state ->
  reuse w = false ->
  fresh w (cell_parameters w scope) ->
  exists t matrix w1,
    linear (ArgsList [inputs; state]) (_state_size self) true 0
      (Some "Linear/Transition") (-1) (in_scope w scope) = (Ok t, w1) /\
    variables w1 !! matrix_name (in_scope w scope) (Some "Linear/Transition")
    = Some matrix /\
    fst (fixed_initializer [feature_dim inputs; feature_dim state] (_state_size self)
           (-1) w) = Ok matrix /\
    (rows_of inputs = zeros B (feature_dim inputs) ->
     rows_of state = zeros B (feature_dim state) ->
     rows_of (tf_tanh t) = zeros B (_state_size self)) /\
    linear (ArgsTensor (tf_tanh t)) (_output_size self) true 0
      (Some "Linear/Output") (-1) w1 = (Raise TypeError, w1) /\
    tanhRNNCell_call self inputs state scope w = (Raise TypeError, leave_scope w w1) /\
    variables w1 !! matrix_name (in_scope w scope) (Some "Linear/Output") = None /\
    variables w1 !! bias_name (in_scope w scope) (Some "Linear/Output") = None.
Proof.
  intros Hin Hst Hreuse Hfresh.
  assert (Hsq : square_identity [feature_dim inputs; feature_dim state]
                  (_state_size self) (-1)).
  { intros k n_in _ Hk. lia. }
  destruct (cell_step_fresh tanh32 (-1) self inputs state scope B w Hin Hst Hsq Hreuse
              Hfresh)
    as (t & w1 & Hrun1 & Ht & Hrun2 & Hcall & Hvars & Hout1 & Hout2).
  exists t. eexists. exists w1.
  split; [exact Hrun1|]. split.
  { rewrite Hvars, lookup_insert_ne by apply bias_name_not_matrix_name.
    apply lookup_insert_eq. }
  split.
  { rewrite fixed_initializer_ok; [| |exact Hsq].
    - cbn [fst].
      by replace (sum_list [feature_dim inputs; feature_dim state])
        with (feature_dim inputs + feature_dim state) by (cbn; lia).
    - pose proof (valid_arg_feature_dim B inputs Hin).
      pose proof (valid_arg_feature_dim B state Hst).
      repeat constructor; lia. }
  split; [|done].
  intros Hzi Hzs.
  unfold rows_of, tf_tanh, tensor_map. cbn [tval]. rewrite Ht. cbn [tvalue_map].
  rewrite (concat_features_zeros B inputs state _ _ Hzi Hzs), matmul_rows_zeros.
  apply map_zeros, tanh32_0.
Qed.

Lemma tanhRNNCell_step_witness :
  exists t matrix w1,
    linear (ArgsList [mkTensor [Some 1; Some 2] (Mat (zeros 1 2));
                      mkTensor [Some 1; Some 3] (Mat (zeros 1 3))])
      3 true 0 (Some "Linear/Transition") (-1) (in_scope world0 "tanhRNN") = (Ok t, w1) /\
    variables w1 !! "tanhRNN/Linear/Transition/Matrix" = Some matrix /\
    fst (fixed_initializer [2; 3] 3 (-1) world0) = Ok matrix /\
    (zeros 1 2 = zeros 1 2 -> zeros 1 3 = zeros 1 3 -> rows_of (tf_tanh t) = zeros 1 3) /\
    linear (ArgsTensor (tf_tanh t)) 2 true 0 (Some "Linear/Output") (-1) w1
    = (Raise TypeError, w1) /\
    tanhRNNCell_call (mkCell tanhRNNCell 2 3 2)
      (mkTensor [Some 1; Some 2] (Mat (zeros 1 2)))
      (mkTensor [Some 1; Some 3] (Mat (zeros 1 3))) "tanhRNN" world0
    = (Raise TypeError, leave_scope world0 w1) /\
    variables w1 !! "tanhRNN/Linear/Output/Matrix" = None /\
    variables w1 !! "tanhRNN/Linear/Output/Bias" = None.
Proof.
  apply (tanhRNNCell_step (mkCell tanhRNNCell 2 3 2)
           (mkTensor [Some 1; Some 2] (Mat (zeros 1 2)))
           (mkTensor [Some 1; Some 3] (Mat (zeros 1 3))) "tanhRNN" 1 world0).
  - exists (Some 1), 1, (zeros 1 2). repeat constructor.
  - exists (Some 1), 2, (zeros 1 3). repeat constructor.
  - reflexivity.
  - repeat constructor.
Defined.

Lemma written_rows_identity_second k n s :
  written_rows [k; n] 0 n 1 s
  = uniform_rows (- sqrt (6 / INR (k + n))) (sqrt (6 / INR (k + n))) k n s
    ++ nd_rows (np_identity n).
Proof. cbn [written_rows]. simpl Z.eqb. cbv iota. by rewrite app_nil_r. Qed.

(** C4: on well-shaped inputs and a state of [state_size] features, out of
    reuse mode and with parameter names not yet in the store, the step of
    [IRNNCell] computes [new_state = relu(linear([inputs, state], state_size,
    bias=True, identity=1))]: the rows of the registered transition matrix that
    multiply the state are the identity matrix, and when the inputs are all
    zero [new_state] is [relu(state)].  It returns neither [new_state] nor an
    output: [linear(new_state, output_size, bias=True)] is given the tensor by
    itself, [assert args] raises [TypeError], and with that exception the step
    ends, the parameters of the output projection not registered. *)
Theorem IRNNCell_step (self : steph_RNNCell) (inputs state : Tensor)
    (scope : string) (B : nat) (w : world) :
  valid_arg B inputs -> valid_arg B state -> feature_dim state = _state_size self ->
  reuse w = false ->
  fresh w (cell_parameters w scope) ->
  exists t matrix w1,
    linear (ArgsList [inputs; state]) (_state_size self) true 0
      (Some "Linear/Transition") 1 (in_scope w scope) = (Ok t, w1) /\
    variables w1 !! matrix_name (in_scope w scope) (Some "Linear/Transition")
    = Some matrix /\
    drop (feature_dim inputs) (rows_of matrix) = nd_rows (np_identity (_state_size self)) /\
    (rows_of inputs = zeros B (feature_dim inputs) ->
     rows_of (tf_nn_relu t) = map (map relu) (rows_of state)) /\
    linear (ArgsTensor (tf_nn_relu t)) (_output_size self) true 0
      (Some "Linear/Output") (-1) w1 = (Raise TypeError, w1) /\
    IRNNCell_call self inputs state scope w = (Raise TypeError, leave_scope w w1) /\
    variables w1 !! matrix_name (in_scope w scope) (Some "Linear/Output") = None /\
    variables w1 !! bias_name (in_scope w scope) (Some "Linear/Output") = None.
Proof.
  intros Hin Hst Hdim Hreuse Hfresh.
  pose proof (valid_arg_feature_dim B state Hst) as Hpos. rewrite Hdim in Hpos.
  assert (Hsq : square_identity [feature_dim inputs; feature_dim state]
                  (_state_size self) 1).
  { intros [|[|k]] n_in Hk Hone; try lia. cbn in Hk. congruence. }
  destruct (cell_step_fresh relu 1 self inputs state scope B w Hin Hst Hsq Hreuse Hfresh)
    as (t & w1 & Hrun1 & Ht & Hrun2 & Hcall & Hvars & Hout1 & Hout2).
  rewrite Hdim, written_rows_identity_second in Ht, Hvars.
  rewrite map_app, float32_identity in Ht, Hvars.
  exists t. eexists. exists w1.
  split; [exact Hrun1|]. split.
  { rewrite Hvars, lookup_insert_ne by apply bias_name_not_matrix_name.
    apply lookup_insert_eq. }
  split.
  { cbn [rows_of tval]. rewrite drop_app_length'; [done|].
    rewrite length_map. symmetry. apply tabulate_length. }
  split; [|done].
  intros Hzi. destruct Hst as (d & k & rows & Hshape & Hval & Hlen & Hrows).
  assert (Hk : _state_size self = S k).
  { rewrite <- Hdim. unfold feature_dim, shape_dim. by rewrite Hshape. }
  rewrite (concat_features_zero_inputs B inputs state _ rows Hzi Hval Hlen) in Ht.
  rewrite matmul_rows_identity_block in Ht;
    [|rewrite length_map; apply tabulate_length|by rewrite Hk].
  unfold rows_of, tf_nn_relu, tensor_map. cbn [tval]. by rewrite Ht, Hval.
Qed.

Lemma IRNNCell_step_witness :
  exists t matrix w1,
    linear (ArgsList [mkTensor [Some 1; Some 2] (Mat (zeros 1 2));
                      mkTensor [Some 1; Some 3] (Mat [[1; -2; 3]%R])])
      3 true 0 (Some "Linear/Transition") 1 (in_scope world0 "IRNN") = (Ok t, w1) /\
    variables w1 !! "IRNN/Linear/Transition/Matrix" = Some matrix /\
    drop 2 (rows_of matrix) = nd_rows (np_identity 3) /\
    (zeros 1 2 = zeros 1 2 ->
     rows_of (tf_nn_relu t) = [[relu 1; relu (-2); relu 3]]) /\
    linear (ArgsTensor (tf_nn_relu t)) 2 true 0 (Some "Linear/Output") (-1) w1
    = (Raise TypeError, w1) /\
    IRNNCell_call (mkCell IRNNCell 2 3 2)
      (mkTensor [Some 1; Some 2] (Mat (zeros 1 2)))
      (mkTensor [Some 1; Some 3] (Mat [[1; -2; 3]%R])) "IRNN" world0
    = (Raise TypeError, leave_scope world0 w1) /\
    variables w1 !! "IRNN/Linear/Output/Matrix" = None /\
    variables w1 !! "IRNN/Linear/Output/Bias" = None.
Proof.
  apply (IRNNCell_step (mkCell IRNNCell 2 3 2)
           (mkTensor [Some 1; Some 2] (Mat (zeros 1 2)))
           (mkTensor [Some 1; Some 3] (Mat [[1; -2; 3]%R])) "IRNN" 1 world0).
  - exists (Some 1), 1, (zeros 1 2). repeat constructor.
  - exists (Some 1), 2, [[1; -2; 3]%R]. repeat constructor.
  - reflexivity.
  - reflexivity.
  - repeat constructor.
Defined.
(** * Further properties *)

(** ** fixed_initializer: the identity index *)

Lemma loop_identity_irrelevant n_out identity identity' l :
  forall i matrix rm w,
    (forall k, k < length l ->
       Z.of_nat (i + k) <> identity /\ Z.of_nat (i + k) <> identity') ->
    fixed_initializer_loop l i n_out identity matrix rm w
    = fixed_initializer_loop l i n_out identity' matrix rm w.
Proof.
  induction l as [|n_in rest IH]; intros i matrix rm w Hout; [done|].
  cbn [fixed_initializer_loop].
  destruct (Hout 0) as [H1 H2]; [cbn; lia|]. rewrite Nat.add_0_r in H1, H2.
  destruct (Z.eqb_spec (Z.of_nat i) identity) as [|_]; [done|].
  destruct (Z.eqb_spec (Z.of_nat i) identity') as [|_]; [done|].
  unfold bind. destruct (block_scale n_in n_out w) as [[scale|e] w0]; [|done].
  destruct (np_random_uniform _ _ _ _ w0) as [[values|e] w1]; [|done].
  destruct (setitem_rows _ _ _ _ w1) as [[m|e] w2]; [|done].
  apply IH. intros k Hk. replace (S i + k) with (i + S k) by lia. apply Hout. cbn. lia.
Qed.

(** An identity index that names no block (negative, or past the end of
    [n_in_list]) gives what [identity = -1] gives. *)
Theorem fixed_initializer_identity_out_of_range (n_in_list : list nat) (n_out : nat)
    (identity : Z) (w : world) :
  (identity < 0 \/ Z.of_nat (length n_in_list) <= identity)%Z ->
  fixed_initializer n_in_list n_out identity w = fixed_initializer n_in_list n_out (-1) w.
Proof.
  intros Hout. unfold fixed_initializer, fixed_initializer_array, bind, np_empty.
  rewrite (loop_identity_irrelevant n_out identity (-1)); [done|].
  intros k Hk. lia.
Qed.

Lemma fixed_initializer_identity_out_of_range_witness :
  fixed_initializer [2; 3] 4 2 world0 = fixed_initializer [2; 3] 4 (-1) world0.
Proof.
  apply (fixed_initializer_identity_out_of_range [2; 3] 4 2 world0). right. simpl. lia.
Defined.

(** ** fixed_initializer: what [np.empty] found in memory *)

Lemma broadcast_to_length v r c blk : broadcast_to v r c = Some blk -> length blk = r.
Proof.
  unfold broadcast_to. destruct (nd_shape v) as [r0 c0].
  destruct (_ && _); [|done]. intros [= <-]. apply tabulate_length.
Qed.

Lemma block_values_uninit u i identity n_in n_out w :
  let c := if (Z.of_nat i =? identity)%Z then ret (np_identity n_in)
           else scale <- block_scale n_in n_out ;;
                np_random_uniform (- scale) scale n_in n_out in
  c (set_uninit u w) = (fst (c w), set_uninit u (snd (c w))).
Proof.
  cbn zeta. destruct (Z.of_nat i =? identity)%Z; [done|].
  unfold bind, block_scale. by destruct (n_in + n_out =? 0)%nat.
Qed.

Lemma loop_uninit n_out identity u l :
  forall i m m' rm nr w,
    nd_shape m = (nr, n_out) -> nd_shape m' = (nr, n_out) ->
    length (nd_rows m) = nr -> length (nd_rows m') = nr ->
    rm + sum_list l <= nr ->
    take rm (nd_rows m) = take rm (nd_rows m') ->
    match fixed_initializer_loop l i n_out identity m rm w,
          fixed_initializer_loop l i n_out identity m' rm (set_uninit u w) with
    | (Ok a, w1), (Ok a', w1') =>
        w1' = set_uninit u w1 /\
        nd_shape a = (nr, n_out) /\ nd_shape a' = (nr, n_out) /\
        length (nd_rows a) = nr /\ length (nd_rows a') = nr /\
        take (rm + sum_list l) (nd_rows a) = take (rm + sum_list l) (nd_rows a')
    | (Raise e, w1), (Raise e', w1') => e = e' /\ w1' = set_uninit u w1
    | _, _ => False
    end.
Proof.
  induction l as [|n_in rest IH]; intros i m m' rm nr w Hs Hs' Hl Hl' Hfit Htake.
  { cbn. by rewrite Nat.add_0_r. }
  replace (sum_list (n_in :: rest)) with (n_in + sum_list rest) in * by done.
  cbn [fixed_initializer_loop].
  set (c := if (Z.of_nat i =? identity)%Z then _ else _).
  rewrite (bind_eq c _ w), (bind_eq c _ (set_uninit u w)).
  assert (Hc : c (set_uninit u w) = (fst (c w), set_uninit u (snd (c w))))
    by apply block_values_uninit.
  rewrite Hc. destruct (c w) as [[values|e] w1]; cbn [fst snd]; [|done].
  rewrite !bind_eq.
  destruct (broadcast_to values n_in n_out) as [blk|] eqn:Hb.
  - pose proof (broadcast_to_length _ _ _ _ Hb) as Hblk.
    rewrite (setitem_rows_ok m nr n_out rm n_in values blk w1) by (done || lia).
    rewrite (setitem_rows_ok m' nr n_out rm n_in values blk (set_uninit u w1))
      by (done || lia).
    rewrite Nat.add_assoc. apply IH; cbn [nd_shape nd_rows]; try done.
    + rewrite splice_length; [done|lia|done].
    + rewrite splice_length; [done|lia|done].
    + lia.
    + rewrite !splice_take by (done || lia). by rewrite Htake.
  - rewrite (setitem_rows_fails m nr n_out rm n_in values w1) by (done || lia).
    by rewrite (setitem_rows_fails m' nr n_out rm n_in values (set_uninit u w1))
      by (done || lia).
Qed.

(** What [fixed_initializer] returns, a matrix or an exception, does not
    depend on what [np.empty] found in memory: every row of the array is
    assigned before it is returned. *)
Theorem fixed_initializer_overwrites_empty (n_in_list : list nat) (n_out : nat)
    (identity : Z) (u : nat -> nat -> R) (w : world) :
  fst (fixed_initializer n_in_list n_out identity (set_uninit u w))
  = fst (fixed_initializer n_in_list n_out identity w).
Proof.
  unfold fixed_initializer, fixed_initializer_array. rewrite !bind_eq. unfold np_empty.
  cbn [uninit set_uninit].
  pose proof (loop_uninit n_out identity u n_in_list 0
                (mkArray (sum_list n_in_list, n_out)
                   (tabulate (sum_list n_in_list) n_out (uninit w)))
                (mkArray (sum_list n_in_list, n_out)
                   (tabulate (sum_list n_in_list) n_out u))
                0 (sum_list n_in_list) w eq_refl eq_refl
                (tabulate_length _ _ _) (tabulate_length _ _ _)
                (Nat.le_refl _) eq_refl) as H.
  unfold set_uninit in H.
  destruct (fixed_initializer_loop _ _ _ _ _ _ w) as [[a|e] w1],
           (fixed_initializer_loop _ _ _ _ _ _ _) as [[a'|e'] w1']; try done.
  - destruct H as (_ & Ha & Ha' & Hl & Hl' & Hrows). cbn [ret fst].
    rewrite !take_ge in Hrows by lia. unfold tf_constant. by rewrite Ha, Ha', Hrows.
  - destruct H as [-> _]. done.
Qed.

(** ** fixed_initializer: a block without inputs or outputs *)

Lemma loop_zero_division identity l :
  forall i matrix rm nr w k,
    nd_shape matrix = (nr, 0) ->
    length (nd_rows matrix) = nr ->
    rm + sum_list l <= nr ->
    l !! k = Some 0 ->
    Forall (fun n_in => 0 < n_in) (take k l) ->
    (forall j, j <= k -> Z.of_nat (i + j) <> identity) ->
    exists w',
      fixed_initializer_loop l i 0 identity matrix rm w = (Raise ZeroDivisionError, w').
Proof.
  induction l as [|n0 rest IH]; intros i matrix rm nr w k Hs Hl Hle Hk Hpos Hid; [done|].
  replace (sum_list (n0 :: rest)) with (n0 + sum_list rest) in Hle by done.
  cbn [fixed_initializer_loop].
  destruct (Z.eqb_spec (Z.of_nat i) identity) as [E|_].
  { specialize (Hid 0). rewrite Nat.add_0_r in Hid. lia. }
  destruct k as [|k].
  - injection Hk as ->. by eexists.
  - cbn [take] in Hpos. apply Forall_cons in Hpos as [Hn0 Hpos]. cbn in Hk.
    unfold bind at 1. unfold bind at 1. unfold bind at 1.
    rewrite block_scale_ok by lia. unfold np_random_uniform.
    rewrite (setitem_rows_ok _ nr 0 rm n0 _ _ _ Hs Hl ltac:(lia)
               (broadcast_to_uniform _ _ _ _ _)).
    eapply (IH (S i) _ (rm + n0) nr _ k); try done.
    + cbn [nd_rows]. rewrite splice_length; [done|lia|apply tabulate_length].
    + lia.
    + intros j Hj. replace (S i + j) with (i + S j) by lia. apply Hid. lia.
Qed.

(** With [n_out = 0], a block of [n_in = 0] that is not the identity block
    stops the call at [6.0 / (n_in + n_out)] with [ZeroDivisionError], once the
    blocks before it, all with inputs and none of them the identity block, have
    been written. *)
Theorem fixed_initializer_zero_division (n_in_list : list nat) (k : nat)
    (identity : Z) (w : world) :
  n_in_list !! k = Some 0 ->
  Forall (fun n_in => 0 < n_in) (take k n_in_list) ->
  (identity < 0 \/ Z.of_nat k < identity)%Z ->
  exists w', fixed_initializer n_in_list 0 identity w = (Raise ZeroDivisionError, w').
Proof.
  intros Hk Hpos Hid. unfold fixed_initializer, fixed_initializer_array.
  rewrite !bind_eq. unfold np_empty.
  destruct (loop_zero_division identity n_in_list 0
              (mkArray (sum_list n_in_list, 0)
                 (tabulate (sum_list n_in_list) 0 (uninit w)))
              0 (sum_list n_in_list) w k eq_refl (tabulate_length _ _ _)
              (Nat.le_refl _) Hk Hpos) as [w' ->]; [|by eexists].
  intros j Hj. lia.
Qed.

Lemma fixed_initializer_zero_division_witness :
  exists w', fixed_initializer [2; 0; 3] 0 (-1) world0 = (Raise ZeroDivisionError, w').
Proof.
  apply (fixed_initializer_zero_division [2; 0; 3] 1 (-1) world0).
  - reflexivity.
  - repeat constructor.
  - left. lia.
Defined.

(** ** fixed_initializer: the blocks beside an identity block *)




(** ** linear: which shape error *)

Lemma not_offending shape :
  ~ offending shape -> length shape = 2 /\ exists k, nth 1 shape None = Some (S k).
Proof.
  unfold offending. intros H. split; [lia|].
  destruct (nth 1 shape None) as [[|k]|]; [tauto|by exists k|tauto].
Qed.

Lemma linear_shapes_loop_first_offending shapes todo :
  forall total_arg_size n_in_list w k shape,
    todo !! k = Some shape -> offending shape ->
    Forall (fun s => ~ offending s) (take k todo) ->
    linear_shapes_loop shapes todo total_arg_size n_in_list w
    = (Raise (ValueError
                ((if (length shape =? 2)%nat
                  then "Linear expects shape[1] of arguments: "
                  else "Linear is expecting 2D arguments: ") +:+ str_shapes shapes)), w).
Proof.
  induction todo as [|s rest IH]; intros total acc w k shape Hk Hoff Hbefore; [done|].
  cbn [linear_shapes_loop]. destruct k as [|k].
  - injection Hk as ->. destruct (Nat.eqb_spec (length shape) 2) as [Hlen|Hlen]; [|done].
    cbn [negb]. destruct Hoff as [?|[->| ->]]; done.
  - cbn [take] in Hbefore. apply Forall_cons in Hbefore as [Hs Hbefore].
    apply not_offending in Hs as (Hlen & n & Hn). rewrite Hlen, Hn. cbn [Nat.eqb negb].
    by apply (IH _ _ w k shape).
Qed.

(** Given a list, [linear] reports the first shape in it that it cannot use:
    one that is not of rank 2 with the message ["Linear is expecting 2D
    arguments: ..."], one of rank 2 with an unknown or zero feature dimension
    with ["Linear expects shape[1] of arguments: ..."]; both messages end with
    the shapes of all arguments. *)
Theorem linear_first_offending_shape (args : list Tensor) (output_size : nat)
    (bias : bool) (bias_start : R) (scope : option string) (identity : Z) (w : world)
    (k : nat) (shape : list (option nat)) :
  map get_shape args !! k = Some shape ->
  offending shape ->
  Forall (fun s => ~ offending s) (take k (map get_shape args)) ->
  linear (ArgsList args) output_size bias bias_start scope identity w
  = (Raise (ValueError
              ((if (length shape =? 2)%nat
                then "Linear expects shape[1] of arguments: "
                else "Linear is expecting 2D arguments: ")
               +:+ str_shapes (map get_shape args))), w).
Proof.
  intros Hk Hoff Hbefore.
  assert (Hne : args <> []) by (by intros ->).
  rewrite (linear_on_list args) by done. rewrite bind_eq.
  by rewrite (linear_shapes_loop_first_offending _ _ 0 [] w k shape Hk Hoff Hbefore).
Qed.

Lemma linear_first_offending_shape_witness :
  linear (ArgsList [mkTensor [Some 2; Some 3] (Mat [[0; 0; 0]; [0; 0; 0]])%R;
                    mkTensor [Some 2; None] (Mat [[]; []]);
                    mkTensor [Some 2] (Vec [0; 0])%R])
         4 true 0 None (-1) world0
  = (Raise (ValueError
              "Linear expects shape[1] of arguments: [[2, 3], [2, None], [2]]"), world0).
Proof.
  apply (linear_first_offending_shape
           [mkTensor [Some 2; Some 3] (Mat [[0; 0; 0]; [0; 0; 0]])%R;
            mkTensor [Some 2; None] (Mat [[]; []]);
            mkTensor [Some 2] (Vec [0; 0])%R]
           4 true 0%R None (-1)%Z world0 1 [Some 2; None]).
  - reflexivity.
  - right. left. reflexivity.
  - repeat constructor. intros [H|[H|H]]; cbn in H; (lia || discriminate).
Defined.

(** ** linear: the sum of the docstring *)

Lemma zip_with_map_seq {A} (f : A -> A -> A) (g h : nat -> A) l :
  zip_with f (map g l) (map h l) = map (fun j => f (g j) (h j)) l.
Proof. induction l as [|j l IH]; [done|]. cbn. by rewrite IH. Qed.

Lemma dot_split x y W k j :
  length x = k -> k <= length W ->
  dot (x ++ y) (column j W)
  = (dot x (column j (take k W)) + dot y (column j (drop k W)))%R.
Proof.
  intros Hx Hk. rewrite <- (take_drop k W) at 1. rewrite column_app.
  apply dot_app. rewrite column_length, length_take. lia.
Qed.

Lemma matmul_rows_zip_app k n W X :
  forall Y,
    Forall (fun r => length r = k) X -> k <= length W ->
    matmul_rows (zip_with app X Y) W n
    = mat_add (matmul_rows X (take k W) n) (matmul_rows Y (drop k W) n).
Proof.
  induction X as [|x X IH]; intros Y HX Hk; [done|].
  destruct Y as [|y Y]; [done|]. apply Forall_cons in HX as [Hx HX].
  cbn [zip_with]. unfold matmul_rows, mat_add in *. cbn [map zip_with].
  rewrite IH by done. f_equal. rewrite zip_with_map_seq.
  apply map_ext. intros j. by apply dot_split.
Qed.

Lemma matmul_rows_no_features B W n :
  matmul_rows (concat_features B []) W n = zeros B n.
Proof.
  unfold matmul_rows, concat_features, zeros. rewrite map_map.
  rewrite <- (map_const_seq (repeat 0%R n) 0 B). apply map_ext. intros b.
  cbn [map concat]. rewrite <- (map_const_seq 0%R 0 n). by apply map_ext.
Qed.

Lemma matmul_rows_sum_of_products B n args :
  forall W,
    Forall (valid_arg B) args -> length W = sum_list (map feature_dim args) ->
    matmul_rows (concat_features B args) W n = sum_of_products B n args W.
Proof.
  induction args as [|a rest IH]; intros W Hargs HW; [apply matmul_rows_no_features|].
  apply Forall_cons in Hargs as [Ha Hrest].
  pose proof Ha as (d & k & rows & Hshape & Hval & Hlen & Hrows).
  assert (Hdim : feature_dim a = S k).
  { unfold feature_dim, shape_dim. by rewrite Hshape. }
  change (map feature_dim (a :: rest)) with (feature_dim a :: map feature_dim rest) in HW.
  replace (sum_list (feature_dim a :: map feature_dim rest))
    with (feature_dim a + sum_list (map feature_dim rest)) in HW by done.
  rewrite <- (concat_features_cons B a rows rest Hval Hlen).
  rewrite (matmul_rows_zip_app (feature_dim a)); [|by rewrite Hdim|lia].
  cbn [sum_of_products]. rewrite IH; [|done|rewrite length_drop; lia].
  unfold rows_of. by rewrite Hval.
Qed.

(** What the docstring of [linear] promises, for a list of arguments: on
    well-shaped arguments, out of reuse mode and with the name of the matrix
    not yet in the store, the result without bias is [sum_i(args[i] * W[i])],
    where [W[i]] are the row blocks of the registered matrix, in the order of
    [args]. *)
Theorem linear_is_sum_of_products (args : list Tensor) (B output_size : nat)
    (bias_start : R) (scope : option string) (identity : Z) (w : world) :
  args <> [] ->
  Forall (valid_arg B) args ->
  square_identity (map feature_dim args) output_size identity ->
  reuse w = false ->
  variables w !! matrix_name w scope = None ->
  exists res W w',
    linear (ArgsList args) output_size false bias_start scope identity w = (Ok res, w') /\
    variables w' !! matrix_name w scope
    = Some (mkTensor [Some (sum_list (map feature_dim args)); Some output_size] (Mat W)) /\
    tval res = Mat (sum_of_products B output_size args W).
Proof.
  intros Hne Hargs Hsq Hreuse Hfresh.
  destruct (linear_fresh args B output_size false bias_start scope identity w
              Hne Hargs Hsq Hreuse Hfresh) as [d Hrun]; [done|].
  cbn zeta in Hrun. eexists _, _, _. split; [exact Hrun|].
  cbn [variables tval]. split; [apply lookup_insert_eq|].
  f_equal. apply matmul_rows_sum_of_products; [done|].
  by rewrite length_map, written_rows_length.
Qed.

Lemma linear_is_sum_of_products_witness :
  exists res W w',
    linear (ArgsList [mkTensor [Some 1; Some 1] (Mat [[1%R]]);
                      mkTensor [Some 1; Some 2] (Mat [[2%R; 3%R]])])
           2 false 0 None (-1) world0 = (Ok res, w') /\
    variables w' !! "Linear/Matrix" = Some (mkTensor [Some 3; Some 2] (Mat W)) /\
    tval res = Mat (mat_add (matmul_rows [[1%R]] (take 1 W) 2)
                      (mat_add (matmul_rows [[2%R; 3%R]] (take 2 (drop 1 W)) 2)
                         (zeros 1 2))).
Proof.
  apply (linear_is_sum_of_products
           [mkTensor [Some 1; Some 1] (Mat [[1%R]]);
            mkTensor [Some 1; Some 2] (Mat [[2%R; 3%R]])]
           1 2 0%R None (-1)%Z world0).
  - done.
  - repeat constructor.
    + exists (Some 1), 0, [[1%R]]. repeat constructor.
    + exists (Some 1), 1, [[2%R; 3%R]]. repeat constructor.
  - intros k n_in _ Hk. lia.
  - reflexivity.
  - reflexivity.
Defined.

(** ** An identity block that is not square, seen from linear and IRNNCell *)

Lemma fixed_initializer_frame l n_out identity w :
  scope_name (snd (fixed_initializer l n_out identity w)) = scope_name w /\
  variables (snd (fixed_initializer l n_out identity w)) = variables w.
Proof.
  destruct (touches_only_fixed_initializer (scope_name w) [] l n_out identity w eq_refl)
    as [Hs Hv].
  split; [done|]. apply map_eq. intros name. apply Hv. apply not_elem_of_nil.
Qed.

Lemma fixed_initializer_mismatch l n_out k n_k w :
  l !! k = Some n_k -> Forall (fun n_in => n_in + n_out <> 0) l ->
  n_k <> n_out -> n_k <> 1 ->
  exists w',
    fixed_initializer l n_out (Z.of_nat k) w
    = (Raise (ValueError ("could not broadcast input array from shape "
                            +:+ str_np_shape (n_k, n_k) +:+ " into shape "
                            +:+ str_np_shape (n_k, n_out))), w')
    /\ scope_name w' = scope_name w /\ variables w' = variables w.
Proof.
  intros Hk Hnz Hne H1.
  pose proof (fixed_initializer_frame l n_out (Z.of_nat k) w) as Hframe.
  revert Hframe. unfold fixed_initializer, fixed_initializer_array. rewrite !bind_eq.
  unfold np_empty.
  destruct (loop_identity_mismatch n_out (Z.of_nat k) l 0
              (mkArray (sum_list l, n_out) (tabulate (sum_list l) n_out (uninit w)))
              0 (sum_list l) w k n_k eq_refl (tabulate_length _ _ _) (Nat.le_refl _)
              Hnz Hk eq_refl Hne H1) as [w' ->].
  cbn [snd]. intros Hframe. by exists w'.
Qed.

Lemma linear_identity_mismatch (args : list Tensor) (B output_size : nat) (bias : bool)
    (bias_start : R) (scope : option string) (k : nat) (a : Tensor) (w : world) :
  Forall (valid_arg B) args ->
  args !! k = Some a ->
  feature_dim a <> output_size -> feature_dim a <> 1 ->
  exists w',
    linear (ArgsList args) output_size bias bias_start scope (Z.of_nat k) w
    = (Raise (ValueError
                ("could not broadcast input array from shape "
                   +:+ str_np_shape (feature_dim a, feature_dim a) +:+ " into shape "
                   +:+ str_np_shape (feature_dim a, output_size))), w')
    /\ scope_name w' = scope_name w /\ variables w' = variables w.
Proof.
  intros Hargs Hk Hne H1.
  assert (Hnil : args <> []) by (by intros ->).
  assert (Hshapes : Forall (fun shape => length shape = 2 /\ 0 < shape_dim shape)
                      (map get_shape args)).
  { apply Forall_map. eapply Forall_impl; [exact Hargs|]. intros a0. apply valid_arg_shape. }
  assert (Hnz : Forall (fun n_in => n_in + output_size <> 0) (map feature_dim args)).
  { apply Forall_map. eapply Forall_impl; [exact Hargs|]. intros a0 Ha.
    pose proof (valid_arg_feature_dim B a0 Ha). cbn. lia. }
  assert (Hdim : map feature_dim args !! k = Some (feature_dim a)).
  { by rewrite list_lookup_fmap, Hk. }
  set (q := scope_join (scope_name w) (scope_or scope "Linear")).
  destruct (fixed_initializer_mismatch _ output_size k _ (set_scope q w) Hdim Hnz Hne H1)
    as (w1 & Hinit & Hs1 & Hv1).
  exists (leave_scope w w1). split; [|by split].
  rewrite (linear_on_list args) by done.
  rewrite (bind_Ok _ _ _ _ _ (linear_shapes_loop_ok _ _ 0 [] w Hshapes)).
  cbn [snd app]. rewrite map_map.
  change (map (fun x => shape_dim (get_shape x)) args) with (map feature_dim args).
  assert (Hbody : linear_body args (map feature_dim args) output_size
                    bias bias_start (Z.of_nat k) (set_scope q w)
                  = (Raise (ValueError
                       ("could not broadcast input array from shape "
                          +:+ str_np_shape (feature_dim a, feature_dim a)
                          +:+ " into shape "
                          +:+ str_np_shape (feature_dim a, output_size))), w1)).
  { unfold linear_body. rewrite bind_eq. by rewrite Hinit. }
  rewrite bind_eq. by rewrite (variable_scope_Ok _ _ _ _ _ Hbody).
Qed.

(** When [identity] names an argument of a list whose feature dimension is
    neither [output_size] nor 1, [linear] fails with the [ValueError] of the
    array assignment in [fixed_initializer], before [Matrix] is registered:
    scope and store are as before. *)
Theorem linear_identity_not_square (args : list Tensor) (B output_size : nat)
    (bias : bool) (bias_start : R) (scope : option string) (k : nat) (a : Tensor)
    (w : world) :
  Forall (valid_arg B) args ->
  args !! k = Some a ->
  feature_dim a <> output_size -> feature_dim a <> 1 ->
  exists w',
    linear (ArgsList args) output_size bias bias_start scope (Z.of_nat k) w
    = (Raise (ValueError
                ("could not broadcast input array from shape "
                   +:+ str_np_shape (feature_dim a, feature_dim a) +:+ " into shape "
                   +:+ str_np_shape (feature_dim a, output_size))), w')
    /\ scope_name w' = scope_name w /\ variables w' = variables w.
Proof. apply linear_identity_mismatch. Qed.

Lemma linear_identity_not_square_witness :
  exists w',
    linear (ArgsList [mkTensor [Some 1; Some 2] (Mat [[1; 2]%R]);
                      mkTensor [Some 1; Some 3] (Mat [[1; 2; 3]%R])])
           4 true 0 None 1 world0
    = (Raise (ValueError
                "could not broadcast input array from shape (3,3) into shape (3,4)"), w')
    /\ scope_name w' = EmptyString /\ variables w' = ∅.
Proof.
  apply (linear_identity_not_square
           [mkTensor [Some 1; Some 2] (Mat [[1; 2]%R]);
            mkTensor [Some 1; Some 3] (Mat [[1; 2; 3]%R])]
           1 4 true 0%R None 1 (mkTensor [Some 1; Some 3] (Mat [[1; 2; 3]%R])) world0).
  - repeat constructor.
    + exists (Some 1), 1, [[1; 2]%R]. repeat constructor.
    + exists (Some 1), 2, [[1; 2; 3]%R]. repeat constructor.
  - reflexivity.
  - cbn. lia.
  - cbn. lia.
Defined.

(** A state whose feature dimension is neither [state_size] nor 1 stops the
    step of [IRNNCell] at the transition, with the [ValueError] of the identity
    block that does not fit; no parameter is registered and the scope is left. *)
Theorem IRNNCell_state_width (self : steph_RNNCell) (inputs state : Tensor)
    (scope : string) (B : nat) (w : world) :
  valid_arg B inputs -> valid_arg B state ->
  feature_dim state <> _state_size self -> feature_dim state <> 1 ->
  exists w',
    IRNNCell_call self inputs state scope w
    = (Raise (ValueError
                ("could not broadcast input array from shape "
                   +:+ str_np_shape (feature_dim state, feature_dim state)
                   +:+ " into shape "
                   +:+ str_np_shape (feature_dim state, _state_size self))), w')
    /\ scope_name w' = scope_name w /\ variables w' = variables w.
Proof.
  intros Hin Hst Hne H1.
  destruct (linear_identity_mismatch [inputs; state] B (_state_size self)
              true 0 (Some "Linear/Transition") 1 state (in_scope w scope))
    as (w1 & Hrun & Hs1 & Hv1); try done.
  { by repeat constructor. }
  exists (leave_scope w w1). split; [|by split].
  unfold IRNNCell_call. apply variable_scope_Ok. fold (in_scope w scope).
  rewrite bind_eq. change (Z.of_nat 1) with 1%Z in Hrun. by rewrite Hrun.
Qed.

Lemma IRNNCell_state_width_witness :
  exists w',
    IRNNCell_call (mkCell IRNNCell 2 4 2)
      (mkTensor [Some 1; Some 2] (Mat [[1; 2]%R]))
      (mkTensor [Some 1; Some 3] (Mat [[1; 2; 3]%R])) "IRNN" world0
    = (Raise (ValueError
                "could not broadcast input array from shape (3,3) into shape (3,4)"), w')
    /\ scope_name w' = EmptyString /\ variables w' = ∅.
Proof.
  apply (IRNNCell_state_width (mkCell IRNNCell 2 4 2)
           (mkTensor [Some 1; Some 2] (Mat [[1; 2]%R]))
           (mkTensor [Some 1; Some 3] (Mat [[1; 2; 3]%R])) "IRNN" 1 world0).
  - exists (Some 1), 1, [[1; 2]%R]. repeat constructor.
  - exists (Some 1), 2, [[1; 2; 3]%R]. repeat constructor.
  - cbn. lia.
  - cbn. lia.
Defined.

(** ** The cells: what a step may change *)

Lemma touches_only_cell_step f identity self inputs state scope w :
  touches_only (scope_name w) (cell_parameters w scope)
    (cell_step f identity self inputs state scope).
Proof.
  unfold cell_step. apply touches_only_variable_scope.
  apply touches_only_bind.
  { eapply touches_only_weaken; [apply touches_only_linear|].
    intros n Hn. unfold cell_parameters.
    apply elem_of_cons in Hn as [->|Hn]; [by left|].
    apply list_elem_of_singleton in Hn as ->. right. by left. }
  intros t. cbn zeta. apply touches_only_bind; [|intros; apply touches_only_ret].
  eapply touches_only_weaken; [apply touches_only_linear|].
  intros n Hn. unfold cell_parameters.
  apply elem_of_cons in Hn as [->|Hn]; [right; right; by left|].
  apply list_elem_of_singleton in Hn as ->. right. right. right. by left.
Qed.

(** Whatever its arguments and however it ends, a step of [tanhRNNCell] or
    of [IRNNCell] leaves the variable scope as it found it and changes no
    entry of the parameter store other than its own four: the matrix and the
    bias of [Linear/Transition] and of [Linear/Output] under the cell's scope. *)
Theorem cell_step_changes_only_its_parameters (self : steph_RNNCell)
    (inputs state : Tensor) (scope : string) (w : world) :
  (scope_name (snd (tanhRNNCell_call self inputs state scope w)) = scope_name w /\
   forall name, name ∉ cell_parameters w scope ->
     variables (snd (tanhRNNCell_call self inputs state scope w)) !! name
     = variables w !! name) /\
  (scope_name (snd (IRNNCell_call self inputs state scope w)) = scope_name w /\
   forall name, name ∉ cell_parameters w scope ->
     variables (snd (IRNNCell_call self inputs state scope w)) !! name
     = variables w !! name).
Proof.
  split.
  - apply (touches_only_cell_step tanh32 (-1) self inputs state scope w w eq_refl).
  - apply (touches_only_cell_step relu 1 self inputs state scope w w eq_refl).
Qed.

(** ** The cells and RNN never return *)

Lemma cell_step_raises f identity self inputs state scope w :
  exists e w', cell_step f identity self inputs state scope w = (Raise e, w').
Proof.
  unfold cell_step, variable_scope. rewrite bind_eq.
  destruct (linear (ArgsList [inputs; state]) _ _ _ _ _ _) as [[t|e] w1].
  - cbn zeta. rewrite bind_eq, linear_on_tensor. by eexists _, _.
  - by eexists _, _.
Qed.

Lemma cell_call_raises cell inputs state w :
  exists e w', cell_call cell inputs state w = (Raise e, w').
Proof.
  unfold cell_call. destruct (cell_class_of cell).
  - apply (cell_step_raises tanh32 (-1)).
  - apply (cell_step_raises relu 1).
  - by eexists _, _.
  - by eexists _, _.
  - by eexists _, _.
Qed.

(** No step of a cell returns an output and a state, and no call of [RNN]
    returns outputs: whatever the arguments and the world, each ends with an
    exception.  For [tanhRNNCell] and [IRNNCell] a step that gets past the
    transition stops at the output projection, which passes one tensor to
    [linear]; the other cells are not implemented; and [RNN] stops at the
    latest in the first step of its cell. *)
Theorem cells_and_RNN_never_return :
  (forall self inputs state scope w,
     exists e w', tanhRNNCell_call self inputs state scope w = (Raise e, w')) /\
  (forall self inputs state scope w,
     exists e w', IRNNCell_call self inputs state scope w = (Raise e, w')) /\
  (forall cell inputs state w,
     exists e w', cell_call cell inputs state w = (Raise e, w')) /\
  (forall cell_type x input_size state_size output_size sequence_length w,
     exists e w',
       RNN cell_type x input_size state_size output_size sequence_length w
       = (Raise e, w')).
Proof.
  split; [intros; apply (cell_step_raises tanh32 (-1))|].
  split; [intros; apply (cell_step_raises relu 1)|].
  split; [apply cell_call_raises|].
  intros cell_type x input_size state_size output_size sequence_length w.
  unfold RNN. cbn zeta. rewrite bind_eq.
  destruct (if String.eqb cell_type "tanhRNN" then _ else _) as [[cell|e] w1];
    [|by eexists _, _].
  rewrite bind_eq. destruct (split_squeeze sequence_length x w1) as [[inputs|e] w2];
    [|by eexists _, _].
  rewrite bind_eq. destruct inputs as [|input_ rest]; [by eexists _, _|].
  unfold rnn_rnn, variable_scope. cbn [rnn_steps Nat.ltb Nat.leb]. rewrite !bind_eq.
  cbn [ret].
  destruct (cell_call_raises cell input_ (zero_state cell (tf_shape0 x))
              (set_scope (scope_join (scope_name w2) "RNN") w2)) as (e & w3 & Hcell).
  unfold bind. rewrite Hcell. by eexists _, _.
Qed.

(** ** RNN on an implemented cell *)

Lemma split_squeeze_ok T x w b k items :
  get_shape x = [b; Some T; Some k] -> tval x = Cube items ->
  0 < T -> Forall (fun item => length item = T) items ->
  split_squeeze T x w
  = (Ok (map (fun t => mkTensor [b; Some k] (Mat (map (fun item => nth t item []) items)))
           (seq 0 T)), w).
Proof.
  intros Hshape Hval HT Hitems. unfold split_squeeze. rewrite Hval, Hshape.
  replace (0 <? T)%nat with true by (symmetry; apply Nat.ltb_lt; lia).
  replace (forallb _ items) with true; [done|].
  symmetry. apply forallb_forall. intros item Hitem. apply Nat.eqb_eq.
  rewrite Forall_forall in Hitems. by apply Hitems, list_elem_of_In.
Qed.

Lemma time_slice_valid B T k items b t :
  length items = B ->
  Forall (fun item => length item = T /\ Forall (fun r => length r = S k) item) items ->
  t < T ->
  valid_arg B (mkTensor [b; Some (S k)] (Mat (map (fun item => nth t item []) items))).
Proof.
  intros Hlen Hitems Ht. exists b, k, (map (fun item => nth t item []) items).
  split; [done|]. split; [done|]. split; [by rewrite length_map|].
  apply Forall_map. eapply Forall_impl; [exact Hitems|].
  intros item [HT Hrows]. cbn. rewrite nth_lookup.
  destruct (lookup_lt_is_Some_2 item t) as [r Hr]; [lia|]. rewrite Hr. cbn.
  by apply (Forall_lookup_1 _ _ _ _ Hrows Hr).
Qed.

Lemma zero_state_valid cell B :
  0 < _state_size cell -> valid_arg B (zero_state cell B).
Proof.
  intros Hpos. unfold zero_state. destruct (_state_size cell) as [|k]; [lia|].
  exists None, k, (repeat (repeat 0%R (S k)) B). split; [done|]. split; [done|].
  split; [apply repeat_length|].
  apply Forall_forall. intros r Hr. apply list_elem_of_In, repeat_spec in Hr as ->.
  apply repeat_length.
Qed.

(** For the cell types ['tanhRNN'] and ['IRNN'], on a (batch, time, features)
    input of [B] sequences of [T >= 1] steps, with a nonzero state size, out of
    reuse mode and with the cell's parameter names not yet in the store, [RNN]
    ends with the [TypeError] of the first step's output projection: it leaves
    scope and reuse mode as it found them, and of the cell's four parameters
    under [RNN/<cell type>] it has registered the matrix and the bias of the
    transition, not those of the output, and changed nothing else in the
    store. *)
Theorem RNN_stops_in_first_step (cell_type : string) (x : Tensor)
    (B T input_size state_size output_size : nat) (w : world) :
  cell_type = "tanhRNN" \/ cell_type = "IRNN" ->
  valid_sequence B T x -> 0 < T -> 0 < state_size ->
  reuse w = false ->
  fresh w (cell_parameters (in_scope w "RNN") cell_type) ->
  exists w',
    RNN cell_type x input_size state_size output_size T w = (Raise TypeError, w') /\
    scope_name w' = scope_name w /\ reuse w' = reuse w /\
    is_Some (variables w' !! matrix_name (in_scope (in_scope w "RNN") cell_type)
                               (Some "Linear/Transition")) /\
    variables w' !! bias_name (in_scope (in_scope w "RNN") cell_type)
                      (Some "Linear/Transition")
    = Some (constant_initializer 0 state_size) /\
    variables w' !! matrix_name (in_scope (in_scope w "RNN") cell_type)
                      (Some "Linear/Output") = None /\
    variables w' !! bias_name (in_scope (in_scope w "RNN") cell_type)
                      (Some "Linear/Output") = None /\
    (forall name, name ∉ cell_parameters (in_scope w "RNN") cell_type ->
       variables w' !! name = variables w !! name).
Proof.
  intros Htype (b & k & items & Hshape & Hval & Hlen & Hitems) HT Hpos Hreuse Hfresh.
  assert (Hlens : Forall (fun item => length item = T) items).
  { eapply Forall_impl; [exact Hitems|]. by intros item [? _]. }
  pose proof (split_squeeze_ok T x w b (S k) items Hshape Hval HT Hlens) as Hsplit.
  destruct T as [|T']; [lia|]. cbn [seq map] in Hsplit.
  set (input_ := mkTensor [b; Some (S k)] (Mat (map (fun item => nth 0 item []) items)))
    in *.
  assert (Hin : valid_arg B input_).
  { apply (time_slice_valid B (S T')); (done || lia). }
  assert (Hbatch : tf_shape0 x = B).
  { unfold tf_shape0. by rewrite Hval. }
  set (wr := in_scope w "RNN") in *.
  assert (Hstep : forall f identity cell,
            _state_size cell = state_size ->
            square_identity [feature_dim input_; feature_dim (zero_state cell B)]
              state_size identity ->
            cell_call cell = (fun i s => cell_step f identity cell i s cell_type) ->
            exists w',
              (inputs <- split_squeeze (S T') x ;;
               r <- rnn_rnn cell inputs (zero_state cell (tf_shape0 x)) ;;
               ret (fst r)) w = (Raise TypeError, w') /\
              scope_name w' = scope_name w /\ reuse w' = reuse w /\
              is_Some (variables w' !! matrix_name (in_scope wr cell_type)
                                         (Some "Linear/Transition")) /\
              variables w' !! bias_name (in_scope wr cell_type) (Some "Linear/Transition")
              = Some (constant_initializer 0 state_size) /\
              variables w' !! matrix_name (in_scope wr cell_type) (Some "Linear/Output")
              = None /\
              variables w' !! bias_name (in_scope wr cell_type) (Some "Linear/Output")
              = None /\
              (forall name, name ∉ cell_parameters wr cell_type ->
                 variables w' !! name = variables w !! name)).
  { intros f identity cell Hsize Hsq Hcall.
    assert (Hstate : valid_arg B (zero_state cell B)).
    { apply zero_state_valid. by rewrite Hsize. }
    rewrite <- Hsize in Hsq.
    destruct (cell_step_fresh f identity cell input_ (zero_state cell B) cell_type B wr
                Hin Hstate Hsq Hreuse Hfresh)
      as (t & w1 & _ & _ & _ & Hcell & Hvars & Hout1 & Hout2).
    exists (leave_scope w (leave_scope wr w1)). split.
    { rewrite (bind_Ok _ _ _ _ _ Hsplit), Hbatch, bind_eq. unfold rnn_rnn.
      rewrite (variable_scope_Ok "RNN" _ w (Raise TypeError) (leave_scope wr w1)); [done|].
      fold (in_scope w "RNN"). fold wr. cbn [rnn_steps Nat.ltb Nat.leb].
      rewrite bind_eq. cbn [ret]. rewrite bind_eq, Hcall. by rewrite Hcell. }
    cbn [leave_scope scope_name reuse variables]. split; [done|]. split; [done|].
    rewrite Hvars, Hsize in *.
    split.
    { rewrite lookup_insert_ne by apply bias_name_not_matrix_name.
      rewrite lookup_insert_eq. by eexists. }
    split; [apply lookup_insert_eq|]. split; [done|]. split; [done|].
    intros name Hn. unfold cell_parameters in Hn.
    rewrite !not_elem_of_cons in Hn. destruct Hn as (Hn1 & Hn2 & _).
    by rewrite !lookup_insert_ne. }
  unfold RNN. cbn zeta. rewrite bind_eq.
  destruct Htype as [-> | ->]; cbn [String.eqb Ascii.eqb Bool.eqb ret].
  - apply (Hstep tanh32 (-1)%Z (mkCell tanhRNNCell input_size state_size output_size));
      [done| |done].
    intros i n_in _ Hi. lia.
  - apply (Hstep relu 1%Z (mkCell IRNNCell input_size state_size output_size));
      [done| |done].
    intros [|[|i]] n_in Hi Hone; try lia. cbn in Hi |- *. congruence.
Qed.

Lemma RNN_stops_in_first_step_witness :
  exists w',
    RNN "IRNN" (mkTensor [Some 1; Some 2; Some 1] (Cube [[[1%R]; [2%R]]])) 7 2 3 2 world0
    = (Raise TypeError, w') /\
    scope_name w' = scope_name world0 /\ reuse w' = reuse world0 /\
    is_Some (variables w' !! "RNN/IRNN/Linear/Transition/Matrix") /\
    variables w' !! "RNN/IRNN/Linear/Transition/Bias" = Some (constant_initializer 0 2) /\
    variables w' !! "RNN/IRNN/Linear/Output/Matrix" = None /\
    variables w' !! "RNN/IRNN/Linear/Output/Bias" = None /\
    (forall name, name ∉ cell_parameters (in_scope world0 "RNN") "IRNN" ->
       variables w' !! name = variables world0 !! name).
Proof.
  apply (RNN_stops_in_first_step "IRNN"
           (mkTensor [Some 1; Some 2; Some 1] (Cube [[[1%R]; [2%R]]]))
           1 2 7 2 3 world0).
  - by right.
  - exists (Some 1), 0, [[[1%R]; [2%R]]]. repeat constructor.
  - lia.
  - lia.
  - reflexivity.
  - repeat constructor.
Defined.

(** ** linear on parameters that are registered already *)

Lemma add_rows_vector rows (v : list R) :
  Forall (fun r => length r = length v) rows ->
  add_rows rows v = Some (map (fun r => zip_with Rplus r v) rows).
Proof.
  induction 1 as [|r rest Hr _ IH]; [done|].
  cbn [add_rows map]. rewrite IH. unfold add_row. by rewrite Hr, Nat.eqb_refl.
Qed.

Lemma shape_compatible_refl s : shape_compatible s s = true.
Proof.
  induction s as [|[d|] s IH]; [done| |done]. cbn. by rewrite Nat.eqb_refl.
Qed.

(** In reuse mode [linear] shares what the store holds: on a list of
    well-shaped arguments, with a matrix of the right height and width (and,
    with [bias], a bias vector of the right length) registered under its
    names, it returns the product of the arguments with the stored matrix,
    plus the stored bias in every row; the initial values it has built, and
    [bias_start], play no part, and the store and the scope are as before. *)
Theorem linear_in_reuse_mode (args : list Tensor) (B output_size : nat) (bias : bool)
    (bias_start : R) (scope : option string) (identity : Z) (w : world)
    (W : list (list R)) (b : list R) :
  args <> [] ->
  Forall (valid_arg B) args ->
  square_identity (map feature_dim args) output_size identity ->
  reuse w = true ->
  variables w !! matrix_name w scope
  = Some (mkTensor [Some (sum_list (map feature_dim args)); Some output_size] (Mat W)) ->
  length W = sum_list (map feature_dim args) ->
  (bias = true ->
   variables w !! bias_name w scope = Some (mkTensor [Some output_size] (Vec b)) /\
   length b = output_size) ->
  exists res w',
    linear (ArgsList args) output_size bias bias_start scope identity w = (Ok res, w') /\
    variables w' = variables w /\ scope_name w' = scope_name w /\
    let product := matmul_rows (concat_features B args) W output_size in
    tval res = Mat (if bias then map (fun r => zip_with Rplus r b) product else product).
Proof.
  intros Hne Hargs Hsq Hreuse Hmatrix HW Hbias.
  set (dims := map feature_dim args) in *.
  set (q := scope_join (scope_name w) (scope_or scope "Linear")).
  assert (Hshapes : Forall (fun shape => length shape = 2 /\ 0 < shape_dim shape)
                      (map get_shape args)).
  { apply Forall_map. eapply Forall_impl; [exact Hargs|]. intros a. apply valid_arg_shape. }
  assert (Hnz : Forall (fun n_in => n_in + output_size <> 0) dims).
  { apply Forall_map. eapply Forall_impl; [exact Hargs|]. intros a Ha.
    pose proof (valid_arg_feature_dim B a Ha). cbn. lia. }
  assert (Hdims : map shape_dim (map get_shape args) = dims).
  { by rewrite map_map. }
  set (Wt := mkTensor [Some (sum_list dims); Some output_size] (Mat W)) in *.
  set (w1 := mkWorld (rng_after dims 0 output_size identity (rng w)) (uninit w) q
               (reuse w) (variables w)).
  destruct (matmul_of_args_valid B args (sum_list dims) output_size W w1
              Hne Hargs eq_refl HW) as [d Hprod].
  set (product := matmul_rows (concat_features B args) W output_size) in *.
  assert (Hbody : linear_body args dims output_size bias bias_start identity (set_scope q w)
            = (Ok (mkTensor [d; Some output_size] (Mat product),
                   if bias then Some (mkTensor [Some output_size] (Vec b)) else None),
               w1)).
  { unfold linear_body.
    rewrite (bind_Ok _ _ _ _ _ (fixed_initializer_ok dims output_size identity _ Hnz Hsq)).
    cbn [set_scope rng].
    assert (Hget : get_variable "Matrix" None
                     (mkTensor [Some (sum_list dims); Some output_size]
                        (Mat (map (map float32)
                                (written_rows dims 0 output_size identity (rng w)))))
                     (set_rng (rng_after dims 0 output_size identity (rng w))
                        (mkWorld (rng w) (uninit w) q (reuse w) (variables w)))
                   = (Ok Wt, w1)).
    { unfold get_variable. cbn [set_rng scope_name variables rng uninit reuse].
      change (scope_join q "Matrix") with (matrix_name w scope).
      rewrite Hmatrix. unfold w1. by rewrite Hreuse. }
    rewrite (bind_Ok _ _ _ _ _ Hget).
    fold (matmul_of_args args Wt). rewrite (bind_Ok _ _ _ _ _ Hprod).
    destruct bias; cbn [negb]; [|done].
    destruct (Hbias eq_refl) as [Hb Hlen].
    rewrite bind_eq. unfold get_variable. unfold w1 at 1 2 3.
    cbn [scope_name variables reuse].
    change (scope_join q "Bias") with (bias_name w scope).
    rewrite Hb. unfold w1. rewrite Hreuse. cbn [get_shape].
    by rewrite shape_compatible_refl. }
  exists (mkTensor [d; Some output_size]
            (Mat (if bias then map (fun r => zip_with Rplus r b) product else product))),
         (leave_scope w w1).
  split; [|by split].
  rewrite (linear_on_list args) by done.
  rewrite (bind_Ok _ _ _ _ _ (linear_shapes_loop_ok _ _ 0 [] w Hshapes)).
  cbn [snd app]. rewrite Hdims.
  rewrite (bind_Ok _ _ _ _ _ (variable_scope_Ok _ _ _ _ _ Hbody)).
  destruct bias; [|done].
  destruct (Hbias eq_refl) as [_ Hlen].
  unfold tf_add. cbn [tval get_shape]. rewrite add_rows_vector; [done|].
  eapply Forall_impl; [apply matmul_rows_width|]. intros r Hr. cbn. by rewrite Hlen.
Qed.

Lemma linear_in_reuse_mode_witness :
  exists res w',
    linear (ArgsList [mkTensor [Some 1; Some 2] (Mat [[1; 2]%R])]) 1 true 5 None (-1)
      (mkWorld (fun _ => 0%R) (fun _ _ => 0%R) "" true
         (<["Linear/Bias" := mkTensor [Some 1] (Vec [7%R])]>
            (<["Linear/Matrix" := mkTensor [Some 2; Some 1] (Mat [[3%R]; [4%R]])]> ∅)))
    = (Ok res, w') /\
    variables w'
    = <["Linear/Bias" := mkTensor [Some 1] (Vec [7%R])]>
        (<["Linear/Matrix" := mkTensor [Some 2; Some 1] (Mat [[3%R]; [4%R]])]> ∅) /\
    scope_name w' = EmptyString /\
    tval res = Mat (map (fun r => zip_with Rplus r [7%R])
                      (matmul_rows (concat_features 1
                                      [mkTensor [Some 1; Some 2] (Mat [[1; 2]%R])])
                         [[3%R]; [4%R]] 1)).
Proof.
  assert (Hargs : Forall (valid_arg 1) [mkTensor [Some 1; Some 2] (Mat [[1; 2]%R])]).
  { repeat constructor. exists (Some 1), 1, [[1; 2]%R]. repeat constructor. }
  assert (Hsq : square_identity
                  (map feature_dim [mkTensor [Some 1; Some 2] (Mat [[1; 2]%R])]) 1 (-1)).
  { intros k n_in _ Hk. lia. }
  exact (linear_in_reuse_mode [mkTensor [Some 1; Some 2] (Mat [[1; 2]%R])] 1 1 true 5%R
           None (-1)%Z
           (mkWorld (fun _ => 0%R) (fun _ _ => 0%R) "" true
              (<["Linear/Bias" := mkTensor [Some 1] (Vec [7%R])]>
                 (<["Linear/Matrix" := mkTensor [Some 2; Some 1] (Mat [[3%R]; [4%R]])]> ∅)))
           [[3%R]; [4%R]] [7%R]
           ltac:(done) Hargs Hsq eq_refl eq_refl eq_refl (fun _ => conj eq_refl eq_refl)).
Defined.

(** Out of reuse mode nothing is shared: a call of [linear] that has
    registered its parameters cannot be repeated in the same scope.  The second
    call fails with the [ValueError] of [get_variable], which finds the name
    of the matrix in the store, and leaves the store as the first call left
    it. *)
Theorem linear_twice_out_of_reuse_mode (args : list Tensor) (B output_size : nat)
    (bias : bool) (bias_start : R) (scope : option string) (identity : Z) (w : world) :
  args <> [] ->
  Forall (valid_arg B) args ->
  square_identity (map feature_dim args) output_size identity ->
  reuse w = false ->
  variables w !! matrix_name w scope = None ->
  (bias = true -> variables w !! bias_name w scope = None) ->
  exists res w1 msg w2,
    linear (ArgsList args) output_size bias bias_start scope identity w = (Ok res, w1) /\
    linear (ArgsList args) output_size bias bias_start scope identity w1
    = (Raise (ValueError msg), w2) /\
    variables w2 = variables w1 /\ scope_name w2 = scope_name w1.
Proof.
  intros Hne Hargs Hsq Hreuse Hfresh Hbias.
  destruct (linear_fresh args B output_size bias bias_start scope identity w
              Hne Hargs Hsq Hreuse Hfresh Hbias) as [d Hrun].
  cbn zeta in Hrun.
  match type of Hrun with _ = (Ok ?t0, ?w0) => set (res := t0) in *; set (w1 := w0) in * end.
  set (dims := map feature_dim args) in *.
  set (q := scope_join (scope_name w) (scope_or scope "Linear")).
  assert (Hshapes : Forall (fun shape => length shape = 2 /\ 0 < shape_dim shape)
                      (map get_shape args)).
  { apply Forall_map. eapply Forall_impl; [exact Hargs|]. intros a. apply valid_arg_shape. }
  assert (Hnz : Forall (fun n_in => n_in + output_size <> 0) dims).
  { apply Forall_map. eapply Forall_impl; [exact Hargs|]. intros a Ha.
    pose proof (valid_arg_feature_dim B a Ha). cbn. lia. }
  assert (Hdims : map shape_dim (map get_shape args) = dims).
  { by rewrite map_map. }
  assert (Hreg : is_Some (variables w1 !! matrix_name w scope)).
  { unfold w1. cbn [variables]. destruct bias.
    - rewrite lookup_insert_ne by apply bias_name_not_matrix_name.
      rewrite lookup_insert_eq. by eexists.
    - rewrite lookup_insert_eq. by eexists. }
  destruct Hreg as [v Hv].
  set (w2 := set_rng (rng_after dims 0 output_size identity (rng w1)) (set_scope q w1)).
  assert (Hbody : linear_body args dims output_size bias bias_start identity (set_scope q w1)
            = (Raise (ValueError ("Variable " +:+ matrix_name w scope
                                    +:+ " already exists, disallowed.")), w2)).
  { unfold linear_body.
    rewrite (bind_Ok _ _ _ _ _ (fixed_initializer_ok dims output_size identity _ Hnz Hsq)).
    rewrite bind_eq. unfold get_variable.
    cbn [set_rng set_scope scope_name variables rng uninit reuse].
    change (scope_join q "Matrix") with (matrix_name w scope).
    rewrite Hv. change (reuse w1) with (reuse w). by rewrite Hreuse. }
  exists res, w1. eexists _, (leave_scope w1 w2). split; [done|]. split; [|done].
  rewrite (linear_on_list args) by done.
  rewrite (bind_Ok _ _ _ _ _ (linear_shapes_loop_ok _ _ 0 [] w1 Hshapes)).
  cbn [snd app]. rewrite Hdims. rewrite bind_eq.
  by rewrite (variable_scope_Ok _ _ _ _ _ Hbody).
Qed.

Lemma linear_twice_out_of_reuse_mode_witness :
  exists res w1 msg w2,
    linear (ArgsList [mkTensor [Some 1; Some 2] (Mat [[1; 2]%R])]) 1 true 0 None (-1)
      world0 = (Ok res, w1) /\
    linear (ArgsList [mkTensor [Some 1; Some 2] (Mat [[1; 2]%R])]) 1 true 0 None (-1) w1
    = (Raise (ValueError msg), w2) /\
    variables w2 = variables w1 /\ scope_name w2 = scope_name w1.
Proof.
  apply (linear_twice_out_of_reuse_mode [mkTensor [Some 1; Some 2] (Mat [[1; 2]%R])]
           1 1 true 0%R None (-1)%Z world0).
  - done.
  - repeat constructor. exists (Some 1), 1, [[1; 2]%R]. repeat constructor.
  - intros k n_in _ Hk. lia.
  - reflexivity.
  - reflexivity.
  - reflexivity.
Defined.

(** ** Registered parameters are never replaced *)

Lemma keeps_ret {A} (a : A) : keeps (ret a).
Proof. by intros w name t H. Qed.

Lemma keeps_raise {A} e : keeps (@raise A e).
Proof. by intros w name t H. Qed.

Lemma keeps_bind {A B} (c : M A) (k : A -> M B) :
  keeps c -> (forall a, keeps (k a)) -> keeps (bind c k).
Proof.
  intros Hc Hk w name t H. unfold bind. specialize (Hc w name t H).
  destruct (c w) as [[a|e] w1]; cbn [snd] in Hc |- *; [|done]. by apply Hk.
Qed.

Lemma keeps_of_world {A} (c : M A) : (forall w, snd (c w) = w) -> keeps c.
Proof. intros Hc w name t H. by rewrite Hc. Qed.

Lemma keeps_variable_scope {A} name (body : M A) :
  keeps body -> keeps (variable_scope name body).
Proof.
  intros Hb w n t H. unfold variable_scope.
  specialize (Hb (set_scope (scope_join (scope_name w) name) w) n t H).
  by destruct (body _) as [r w'].
Qed.

Lemma keeps_get_variable name shape initial : keeps (get_variable name shape initial).
Proof.
  intros w n t H. unfold get_variable. cbn zeta.
  destruct (variables w !! scope_join (scope_name w) name) as [v|] eqn:E, (reuse w);
    try done.
  - destruct shape as [s|]; [|done]. by destruct (shape_compatible s (get_shape v)).
  - cbn [snd variables]. rewrite lookup_insert_ne; [done|]. intros <-. congruence.
Qed.

Lemma keeps_fixed_initializer l n_out identity : keeps (fixed_initializer l n_out identity).
Proof.
  intros w name t H. by rewrite (proj2 (fixed_initializer_frame l n_out identity w)).
Qed.

Lemma keeps_matmul_of_args args matrix : keeps (matmul_of_args args matrix).
Proof.
  apply keeps_of_world. intros w.
  by rewrite (matmul_of_args_pure args matrix w w).
Qed.

Lemma keeps_linear args output_size bias bias_start scope identity :
  keeps (linear args output_size bias bias_start scope identity).
Proof.
  unfold linear. apply keeps_bind.
  { destruct args as [|[|a l]|t]; (apply keeps_ret || apply keeps_raise). }
  intros truth. apply keeps_bind.
  { destruct truth; [apply keeps_ret|apply keeps_raise]. }
  intros _. apply keeps_bind.
  { apply keeps_of_world. intros w. apply linear_shapes_loop_world. }
  intros sizes. apply keeps_bind.
  { apply keeps_variable_scope. unfold linear_body.
    apply keeps_bind; [apply keeps_fixed_initializer|]. intros initial.
    apply keeps_bind; [apply keeps_get_variable|]. intros matrix.
    apply keeps_bind; [apply (keeps_matmul_of_args (as_list args) matrix)|]. intros res.
    destruct bias; cbn [negb]; [|apply keeps_ret].
    apply keeps_bind; [apply keeps_get_variable|]. intros b. apply keeps_ret. }
  intros [res [b|]]; [|apply keeps_ret].
  apply keeps_of_world. intros w. apply tf_add_world.
Qed.

Lemma keeps_cell_step f identity self inputs state scope :
  keeps (cell_step f identity self inputs state scope).
Proof.
  unfold cell_step. apply keeps_variable_scope.
  apply keeps_bind; [apply keeps_linear|]. intros t. cbn zeta.
  apply keeps_bind; [apply keeps_linear|]. intros output. apply keeps_ret.
Qed.

Lemma keeps_cell_call cell inputs state : keeps (cell_call cell inputs state).
Proof.
  unfold cell_call. destruct (cell_class_of cell).
  - apply (keeps_cell_step tanh32 (-1)).
  - apply (keeps_cell_step relu 1).
  - apply keeps_raise.
  - apply keeps_raise.
  - apply keeps_raise.
Qed.

Lemma keeps_rnn_steps cell inputs :
  forall time state, keeps (rnn_steps cell time inputs state).
Proof.
  induction inputs as [|input_ rest IH]; intros time state; [apply keeps_ret|].
  cbn [rnn_steps]. apply keeps_bind.
  { destruct (0 <? time)%nat; [by intros w name t H|apply keeps_ret]. }
  intros _. apply keeps_bind; [apply keeps_cell_call|]. intros step.
  apply keeps_bind; [apply IH|]. intros later. apply keeps_ret.
Qed.

Lemma keeps_RNN cell_type x input_size state_size output_size sequence_length :
  keeps (RNN cell_type x input_size state_size output_size sequence_length).
Proof.
  unfold RNN. cbn zeta. apply keeps_bind.
  { destruct (String.eqb cell_type "tanhRNN"); [apply keeps_ret|].
    destruct (String.eqb cell_type "IRNN"); [apply keeps_ret|apply keeps_raise]. }
  intros cell. apply keeps_bind.
  { apply keeps_of_world. intros w. unfold split_squeeze.
    destruct (tval x); try done. by destruct (_ && _). }
  intros inputs. apply keeps_bind; [|intros r; apply keeps_ret].
  unfold rnn_rnn. destruct inputs; [apply keeps_raise|].
  apply keeps_variable_scope, keeps_rnn_steps.
Qed.

(** [linear], the steps of [tanhRNNCell] and [IRNNCell] and [RNN] only ever
    add parameters: whatever their arguments and however they end, a name the
    store holds a parameter for before the call holds the same parameter
    after it. *)
Theorem registered_parameters_are_kept :
  (forall args output_size bias bias_start scope identity,
     keeps (linear args output_size bias bias_start scope identity)) /\
  (forall self inputs state scope, keeps (tanhRNNCell_call self inputs state scope)) /\
  (forall self inputs state scope, keeps (IRNNCell_call self inputs state scope)) /\
  (forall cell_type x input_size state_size output_size sequence_length,
     keeps (RNN cell_type x input_size state_size output_size sequence_length)).
Proof.
  split; [apply keeps_linear|]. split; [|split].
  - intros. apply (keeps_cell_step tanh32 (-1)).
  - intros. apply (keeps_cell_step relu 1).
  - apply keeps_RNN.
Qed.

